(** * Horilla CRM front-end scripts: shortcut-key overlay and chart options

    A shallow embedding of

      - [horilla_keys/static/horilla_keys/assets/js/short_key.js]: the
        shortcut catalog, the Alt-hold overlay and the key handlers;
      - [static/assets/js/horilla_charts.js]: [getChartOption] with the pie
        and donut builders, [getDynamicColors], the series of the column,
        bar and stacked vertical charts, and the click and hover handlers.

    A JavaScript string is a Rocq string in an encoding that keeps every
    ASCII character as the one character of its code and spells the others
    with characters from 128 on (UTF-8 is one).  [toUpperCase] and
    [toLowerCase] are the browser's, which follow the Unicode case mappings:
    they are parameters of the development, and what a statement needs of
    them is among its hypotheses.

    The browser is modelled by what the scripts touch: the timer table,
    the overlay element with its [hidden] class and its mutation observer,
    and a log of the effects the scripts have on the outside (timers armed
    and cleared, the overlay rendered, default actions suppressed,
    navigations, console errors). *)

From Stdlib Require Import Ascii String List Bool Arith PArith ZArith DecimalNat DecimalString Lia.
From stdpp Require Import base option list strings gmap.

Set Warnings "-register-all".

Local Open Scope string_scope.
Local Open Scope list_scope.

(** ** JavaScript primitives *)

Module Js.

(** [s.toUpperCase()] and [s.toLowerCase()]: the case mappings of the
    browser the scripts run in. *)
Class CaseMapping := {
  toUpperCase : string -> string;
  toLowerCase : string -> string
}.

(** A string of ASCII characters only. *)
Definition isAsciiChar (c : ascii) : bool := Nat.ltb (nat_of_ascii c) 128.

Fixpoint isAscii (s : string) : bool :=
  match s with
  | EmptyString => true
  | String c r => (isAsciiChar c && isAscii r)%bool
  end.

(** What the case mappings do on such strings: the letters a-z and A-Z are
    exchanged for each other and every other character is kept. *)
Definition upper_char (c : ascii) : ascii :=
  let n := nat_of_ascii c in
  if (Nat.leb 97 n && Nat.leb n 122)%bool then ascii_of_nat (n - 32) else c.

Definition lower_char (c : ascii) : ascii :=
  let n := nat_of_ascii c in
  if (Nat.leb 65 n && Nat.leb n 90)%bool then ascii_of_nat (n + 32) else c.

Fixpoint asciiUpper (s : string) : string :=
  match s with
  | EmptyString => EmptyString
  | String c r => String (upper_char c) (asciiUpper r)
  end.

Fixpoint asciiLower (s : string) : string :=
  match s with
  | EmptyString => EmptyString
  | String c r => String (lower_char c) (asciiLower r)
  end.

(** The case mappings restricted to strings of ASCII characters; the
    concrete pages below, whose strings are all of this kind, are run with
    it. *)
Definition asciiCase : CaseMapping :=
  {| toUpperCase := asciiUpper; toLowerCase := asciiLower |}.

(** Truthiness of a value that is [null]/[undefined] ([None]) or a string:
    the empty string is falsy. *)
Definition truthy (v : option string) : bool :=
  match v with
  | Some s => negb (String.eqb s "")
  | None => false
  end.

(** [v || ''] for such a value. *)
Definition or_empty (v : option string) : string :=
  match v with
  | Some s => s
  | None => ""
  end.

End Js.

(** ** short_key.js *)

Module ShortKey.

(** One element of [data.shortcuts] as the endpoint sends it. *)
Record RawShortcut := {
  raw_key : string;
  raw_command : string;
  raw_title : string;
  raw_section : option string;
  raw_description : option string;
  raw_page : string
}.

(** One element of [window.shortcutKeysCache]. *)
Record Shortcut := {
  key : string;
  command : string;
  displayCommand : string;
  displaySymbol : string;
  title : string;
  section : option string;
  description : string;
  page : string
}.

Section WithCaseMapping.
Context {cm : Js.CaseMapping}.

(** The arrow function mapped over [data.shortcuts] in the [success]
    callbacks of [fetchShortcutKeys] and [refreshShortcutKeys]. *)
Definition normalize (isMac : bool) (sk : RawShortcut) : Shortcut :=
  let onMacAlt := (String.eqb (Js.toLowerCase (raw_command sk)) "alt" && isMac)%bool in
  {| key := Js.toUpperCase (raw_key sk);
     command := Js.toLowerCase (raw_command sk);
     displayCommand := if onMacAlt then "OPTION" else Js.toUpperCase (raw_command sk);
     displaySymbol := if onMacAlt then "⌥" else Js.toUpperCase (raw_command sk);
     title := raw_title sk;
     section := raw_section sk;
     description := Js.or_empty (raw_description sk);
     page := raw_page sk |}.

(** [window.shortcutKeysCache.find(sk => sk.key === pressedKey &&
    sk.command.toLowerCase() === 'alt')] *)
Definition matches (pressedKey : string) (sk : Shortcut) : bool :=
  (String.eqb (key sk) pressedKey
   && String.eqb (Js.toLowerCase (command sk)) "alt")%bool.

Definition lookup (cache : list Shortcut) (pressedKey : string) : option Shortcut :=
  List.find (matches pressedKey) cache.

(** The [URL] object built for a navigation: [new URL(page,
    window.location.origin)], then the [searchParams.set] calls made on
    it.  The object is the browser's; the model records how it was built. *)
Inductive Url :=
| NewURL (page : string)
| SearchParamsSet (u : Url) (name value : string).

(** Lines 197-200: the target of a matched shortcut. *)
Definition targetUrl (m : Shortcut) : Url :=
  let url := NewURL (page m) in
  if Js.truthy (section m)
  then SearchParamsSet url "section" (Js.or_empty (section m))
  else url.

(** Callbacks handed to [setTimeout]. *)
Inductive Timer :=
| ShowTimer                       (* showShortcutModal(window.shortcutKeysCache), after MODIFIER_HOLD_DURATION *)
| HideTimer (modalFound : bool)   (* modal.addClass('hidden'), 200ms after closeShortcutModal; [modal] is the
                                     jQuery set captured by the close, empty when the element did not exist *)
| ObserverTimer.                  (* setupModalObserver, after 0ms *)

(** The element [#shortcutKeysModal]. *)
Record Modal := {
  hidden : bool;              (* carries the class [hidden] *)
  observerAttached : bool     (* [data-observer-attached] is set and the MutationObserver observes it *)
}.

Inductive Effect :=
| SetTimeout (id : positive) (t : Timer)
| ClearTimeout (id : positive)
| ShowOverlay (rows : list Shortcut)   (* the overlay made visible with these rows *)
| PreventDefault                       (* e.preventDefault() on the event being handled *)
| Navigate (u : Url)                   (* window.location.href = u.toString() *)
| ConsoleError (msg : string).

(** [window.shortcutKeysState] *)
Record KeysState := {
  modalShown : bool;
  activeModifier : option string;
  modifierHoldTimer : option positive
}.

Record Page := {
  shortcutKeysState : KeysState;
  shortcutKeysCache : list Shortcut;
  isMac : bool;                 (* /mac|darwin/i.test(navigator.userAgent) *)
  fetchInFlight : bool;         (* the request of initShortcutKeys has not completed *)
  listening : bool;             (* keydown.shortcutKeys / keyup.shortcutKeys are bound *)
  modal : option Modal;
  timers : gmap positive Timer; (* pending timeouts *)
  nextTimerId : positive;
  effects : list Effect         (* oldest first *)
}.

Definition set_state (s : KeysState) (p : Page) : Page :=
  {| shortcutKeysState := s; shortcutKeysCache := shortcutKeysCache p;
     isMac := isMac p; fetchInFlight := fetchInFlight p; listening := listening p;
     modal := modal p; timers := timers p; nextTimerId := nextTimerId p;
     effects := effects p |}.

Definition set_cache (c : list Shortcut) (p : Page) : Page :=
  {| shortcutKeysState := shortcutKeysState p; shortcutKeysCache := c;
     isMac := isMac p; fetchInFlight := fetchInFlight p; listening := listening p;
     modal := modal p; timers := timers p; nextTimerId := nextTimerId p;
     effects := effects p |}.

Definition set_modal (m : option Modal) (p : Page) : Page :=
  {| shortcutKeysState := shortcutKeysState p; shortcutKeysCache := shortcutKeysCache p;
     isMac := isMac p; fetchInFlight := fetchInFlight p; listening := listening p;
     modal := m; timers := timers p; nextTimerId := nextTimerId p;
     effects := effects p |}.

Definition set_timers (t : gmap positive Timer) (next : positive) (p : Page) : Page :=
  {| shortcutKeysState := shortcutKeysState p; shortcutKeysCache := shortcutKeysCache p;
     isMac := isMac p; fetchInFlight := fetchInFlight p; listening := listening p;
     modal := modal p; timers := t; nextTimerId := next;
     effects := effects p |}.

Definition emit (e : Effect) (p : Page) : Page :=
  {| shortcutKeysState := shortcutKeysState p; shortcutKeysCache := shortcutKeysCache p;
     isMac := isMac p; fetchInFlight := fetchInFlight p; listening := listening p;
     modal := modal p; timers := timers p; nextTimerId := nextTimerId p;
     effects := effects p ++ [e] |}.

(** The callback of the initial request has run: the handlers are bound. *)
Definition fetch_completed (p : Page) : Page :=
  {| shortcutKeysState := shortcutKeysState p; shortcutKeysCache := shortcutKeysCache p;
     isMac := isMac p; fetchInFlight := false; listening := true;
     modal := modal p; timers := timers p; nextTimerId := nextTimerId p;
     effects := effects p |}.

Definition set_modalShown (b : bool) (p : Page) : Page :=
  let s := shortcutKeysState p in
  set_state {| modalShown := b; activeModifier := activeModifier s;
               modifierHoldTimer := modifierHoldTimer s |} p.

Definition set_activeModifier (m : option string) (p : Page) : Page :=
  let s := shortcutKeysState p in
  set_state {| modalShown := modalShown s; activeModifier := m;
               modifierHoldTimer := modifierHoldTimer s |} p.

Definition set_modifierHoldTimer (t : option positive) (p : Page) : Page :=
  let s := shortcutKeysState p in
  set_state {| modalShown := modalShown s; activeModifier := activeModifier s;
               modifierHoldTimer := t |} p.

(** [setTimeout(callback, delay)]: the browser hands out a fresh positive id. *)
Definition setTimeout (t : Timer) (p : Page) : positive * Page :=
  let id := nextTimerId p in
  (id, emit (SetTimeout id t) (set_timers (<[id := t]> (timers p)) (Pos.succ id) p)).

(** [clearTimeout(id)] *)
Definition clearTimeout (id : positive) (p : Page) : Page :=
  emit (ClearTimeout id) (set_timers (delete id (timers p)) (nextTimerId p) p).

(** [if (state.modifierHoldTimer) { clearTimeout(state.modifierHoldTimer);
    state.modifierHoldTimer = null; }] *)
Definition cancelHoldTimer (p : Page) : Page :=
  match modifierHoldTimer (shortcutKeysState p) with
  | Some id => set_modifierHoldTimer None (clearTimeout id p)
  | None => p
  end.

(** The three resets shared by [closeShortcutModal] (lines 21-27) and the
    observer callback (lines 42-48). *)
Definition resetState (p : Page) : Page :=
  cancelHoldTimer (set_activeModifier None (set_modalShown false p)).

(** Lines 8-28.  The opacity and scale classes go on the inner box, which
    the observer does not watch. *)
Definition closeShortcutModal (p : Page) : Page :=
  let '(_, p) := setTimeout (HideTimer (bool_decide (is_Some (modal p)))) p in
  resetState p.

(** Lines 35-51: the MutationObserver callback, run after the task that
    changed the [class] attribute of the element, when the observer is
    attached. *)
Definition classChanged (p : Page) : Page :=
  match modal p with
  | Some m =>
      if observerAttached m
      then (if hidden m then resetState p else p)
      else p
  | None => p
  end.

(** [modal.addClass('hidden')]: jQuery writes the attribute only when the
    class is not there yet. *)
Definition addClassHidden (p : Page) : Page :=
  match modal p with
  | Some m =>
      if hidden m then p
      else classChanged (set_modal (Some {| hidden := true; observerAttached := observerAttached m |}) p)
  | None => p
  end.

(** [modal.removeClass('hidden')] *)
Definition removeClassHidden (p : Page) : Page :=
  match modal p with
  | Some m =>
      if hidden m
      then classChanged (set_modal (Some {| hidden := false; observerAttached := observerAttached m |}) p)
      else p
  | None => p
  end.

(** Lines 30-59. *)
Definition setupModalObserver (p : Page) : Page :=
  match modal p with
  | Some m =>
      if observerAttached m then p
      else set_modal (Some {| hidden := hidden m; observerAttached := true |}) p
  | None => p
  end.

(** Lines 71-98: the appended element carries the class [hidden]. *)
Definition createShortcutModal (p : Page) : Page :=
  match modal p with
  | Some _ => setupModalObserver p
  | None =>
      let p := set_modal (Some {| hidden := true; observerAttached := false |}) p in
      snd (setTimeout ObserverTimer p)
  end.

(** Lines 125-153. *)
Definition showShortcutModal (keys : list Shortcut) (p : Page) : Page :=
  let p := createShortcutModal p in
  let p := removeClassHidden p in
  let p := set_modalShown true p in
  emit (ShowOverlay keys) p.

(** A keyboard event with what the handlers read of it and of the document:
    [e.altKey], [e.key] and whether
    [$("input:focus, textarea:focus, select:focus")] is non-empty. *)
Record KeyEvent := {
  altKey : bool;
  pressed : string;
  focusInTextEntry : bool
}.

(** Lines 160-204. *)
Definition onKeyDown (e : KeyEvent) (p : Page) : Page :=
  if (altKey e && negb (Js.truthy (activeModifier (shortcutKeysState p))))%bool then
    let p := set_activeModifier (Some "alt") p in
    if focusInTextEntry e then p
    else if (negb (modalShown (shortcutKeysState p))
             && negb (bool_decide (is_Some (modifierHoldTimer (shortcutKeysState p)))))%bool
    then let '(id, p) := setTimeout ShowTimer p in
         set_modifierHoldTimer (Some id) p
    else p
  else if (Js.truthy (activeModifier (shortcutKeysState p)) && altKey e)%bool then
    let pressedKey := Js.toUpperCase (pressed e) in
    let p := cancelHoldTimer p in
    match lookup (shortcutKeysCache p) pressedKey with
    | Some m =>
        let p := emit PreventDefault p in
        if focusInTextEntry e then p
        else
          let p := closeShortcutModal p in
          emit (Navigate (targetUrl m)) p
    | None => p
    end
  else p.

(** Lines 206-215. *)
Definition onKeyUp (e : KeyEvent) (p : Page) : Page :=
  if (negb (altKey e)
      && bool_decide (activeModifier (shortcutKeysState p) = Some "alt"))%bool
  then cancelHoldTimer (set_activeModifier None p)
  else p.

(** The [success] callback of [fetchShortcutKeys] followed by the callback
    given at line 157. *)
Definition fetchSucceeded (data : list RawShortcut) (p : Page) : Page :=
  let p := set_cache (List.map (normalize (isMac p)) data) p in
  let keys := shortcutKeysCache p in
  fetch_completed (set_cache keys p).

(** The [error] callback of [fetchShortcutKeys]: [callback([])]. *)
Definition fetchFailed (p : Page) : Page :=
  let p := emit (ConsoleError "Failed to fetch shortcut keys:") p in
  fetch_completed (set_cache [] p).

(** Lines 219-241. *)
Definition refreshSucceeded (data : list RawShortcut) (p : Page) : Page :=
  set_cache (List.map (normalize (isMac p)) data) p.

Definition refreshFailed (p : Page) : Page :=
  emit (ConsoleError "Failed to refresh shortcut keys:") p.

(** A pending timeout fires: it leaves the table and its callback runs. *)
Definition timerFires (id : positive) (p : Page) : Page :=
  match timers p !! id with
  | Some t =>
      let p := set_timers (delete id (timers p)) (nextTimerId p) p in
      match t with
      | ShowTimer => showShortcutModal (shortcutKeysCache p) p
      | HideTimer found => if found then addClassHidden p else p
      | ObserverTimer => setupModalObserver p
      end
  | None => p
  end.

(** What can happen to the page, one task at a time. *)
Inductive Event :=
| FetchSuccess (data : list RawShortcut)    (* the request of initShortcutKeys succeeds *)
| FetchError                                (* ... or fails *)
| RefreshSuccess (data : list RawShortcut)  (* a request of refreshShortcutKeys succeeds *)
| RefreshError                              (* ... or fails *)
| KeyDown (e : KeyEvent)
| KeyUp (e : KeyEvent)
| TimerFires (id : positive)
| CloseButton                               (* onclick="closeShortcutModal()" *)
| ExternalHide.                             (* other code adds the class [hidden] to the overlay *)

Definition step (ev : Event) (p : Page) : Page :=
  match ev with
  | FetchSuccess data => if fetchInFlight p then fetchSucceeded data p else p
  | FetchError => if fetchInFlight p then fetchFailed p else p
  | RefreshSuccess data => refreshSucceeded data p
  | RefreshError => refreshFailed p
  | KeyDown e => if listening p then onKeyDown e p else p
  | KeyUp e => if listening p then onKeyUp e p else p
  | TimerFires id => timerFires id p
  | CloseButton => closeShortcutModal p
  | ExternalHide => addClassHidden p
  end.

Fixpoint run (evs : list Event) (p : Page) : Page :=
  match evs with
  | [] => p
  | ev :: rest => run rest (step ev p)
  end.

(** The page once the script has been loaded and [initShortcutKeys] has
    run: lines 2-6, line 69, and the request of line 157 under way.
    [existing] tells whether the document already contains the overlay
    element, and with which visibility. *)
Definition init (mac : bool) (existing : option bool) : Page :=
  {| shortcutKeysState :=
       {| modalShown := false; activeModifier := None; modifierHoldTimer := None |};
     shortcutKeysCache := [];
     isMac := mac;
     fetchInFlight := true;
     listening := false;
     modal := match existing with
              | Some h => Some {| hidden := h; observerAttached := false |}
              | None => None
              end;
     timers := ∅;
     nextTimerId := 1%positive;
     effects := [] |}.

Definition reachable (p : Page) : Prop :=
  exists mac existing evs, p = run evs (init mac existing).

End WithCaseMapping.

End ShortKey.

(** ** horilla_charts.js *)

Module Charts.

(** JavaScript values as the option objects hold them.  A function value
    is named by where it is written in the source. *)
Inductive JsVal :=
| JUndefined
| JNull
| JBool (b : bool)
| JNum (n : Z)
| JStr (s : string)
| JArr (items : list JsVal)
| JObj (fields : list (string * JsVal))
| JFun (source : string).

Definition truthy (v : JsVal) : bool :=
  match v with
  | JUndefined | JNull => false
  | JBool b => b
  | JNum n => negb (Z.eqb n 0)
  | JStr s => negb (String.eqb s "")
  | JArr _ | JObj _ | JFun _ => true
  end.

(** [a[i]] on an array: [undefined] out of range. *)
Definition index (a : list JsVal) (i : nat) : JsVal :=
  match nth_error a i with
  | Some v => v
  | None => JUndefined
  end.

(** [labels.map((label, index) => f(label, index))] *)
Fixpoint mapi_from {A B} (f : A -> nat -> B) (i : nat) (l : list A) : list B :=
  match l with
  | [] => []
  | x :: r => f x i :: mapi_from f (S i) r
  end.

Definition mapi {A B} (f : A -> nat -> B) (l : list A) : list B := mapi_from f 0 l.

(** Lines 4-11. *)
Definition defaultColors : list string :=
  [ "#a5b4fc"; "#fca5a5"; "#fdba74"; "#38bdf8"; "#a7f3d0";
    "#c084fc"; "#fb7185"; "#60a5fa"; "#5eead4"; "#22d3ee";
    "#f8b4cb"; "#b4d8ff"; "#c7d2fe"; "#fde68a";
    "#d1d5db"; "#e879f9"; "#94a3b8"; "#fcd34d";
    "#86efac"; "#f472b6"; "#818cf8"; "#fb923c";
    "#a78bfa"; "#4ade80"; "#f59e0b"; "#ec4899"; "#06b6d4" ].

(** [isDarkMode()] reads the class of [document.body]; it is an input here. *)
Definition getTextColor (isDarkMode : bool) : string :=
  if isDarkMode then "#e5e7eb" else "#374151".

(** [commonStyles] *)
Definition fontFamily : string := "'Inter', sans-serif".
Definition legendFontSize : Z := 12.

(** Lines 77-91. *)
Definition getLegendConfig (isDarkMode : bool) (position : string) : JsVal :=
  let bottom := String.eqb position "bottom" in
  JObj [ ("orient", JStr (if bottom then "horizontal" else "vertical"));
         ("bottom", if bottom then JStr "0%" else JUndefined);
         ("left", JStr (if bottom then "center" else "0%"));
         ("top", if String.eqb position "left" then JStr "center" else JUndefined);
         ("itemWidth", JNum 12);
         ("itemHeight", JNum 12);
         ("textStyle", JObj [ ("fontSize", JNum legendFontSize);
                              ("fontFamily", JStr fontFamily);
                              ("color", JStr (getTextColor isDarkMode)) ]) ].

(** Lines 663-678: the fields spread into every option object. *)
Definition getAnimationConfig : list (string * JsVal) :=
  [ ("animation", JBool true);
    ("animationThreshold", JNum 2000);
    ("animationDuration", JNum 1000);
    ("animationEasing", JStr "cubicOut");
    ("animationDelay", JFun "function (idx) { return idx * 10; }");
    ("animationDurationUpdate", JNum 300);
    ("animationEasingUpdate", JStr "cubicOut");
    ("animationDelayUpdate", JFun "function (idx) { return idx * 10; }") ].

(** The arrow function of lines 135-139 and 189-193. *)
Definition pieDatum (data : list JsVal) (urls : option (list JsVal))
    (label : JsVal) (i : nat) : JsVal :=
  JObj [ ("name", label);
         ("value", if truthy (index data i) then index data i else JNum 0);
         ("url", match urls with
                 | Some u => if truthy (index u i) then index u i else JNull
                 | None => JNull
                 end) ].

Definition pieEmphasis (isDarkMode : bool) : JsVal :=
  JObj [ ("label", JObj [ ("show", JBool true);
                          ("fontSize", JNum 14);
                          ("fontWeight", JStr "bold");
                          ("color", JStr (getTextColor isDarkMode)) ]);
         ("itemStyle", JObj [ ("shadowBlur", JNum 10);
                              ("shadowOffsetX", JNum 0);
                              ("shadowColor", JStr "rgba(0, 0, 0, 0.5)") ]) ].

(** Lines 134-185. *)
Definition getPieChartOption (isDarkMode : bool)
    (labels data colors : list JsVal) (labelField : JsVal)
    (urls : option (list JsVal)) : JsVal :=
  let pieData := mapi (pieDatum data urls) labels in
  JObj (getAnimationConfig ++
    [ ("tooltip", JObj [ ("trigger", JStr "item");
                         ("formatter", JFun "getPieChartOption tooltip.formatter") ]);
      ("legend", getLegendConfig isDarkMode "bottom");
      ("color", JArr colors);
      ("series", JArr [ JObj
        [ ("name", labelField);
          ("type", JStr "pie");
          ("radius", JStr "65%");
          ("center", JArr [JStr "50%"; JStr "45%"]);
          ("avoidLabelOverlap", JBool false);
          ("itemStyle", JObj [ ("borderRadius", JNum 4);
                               ("borderColor", JStr "#fff");
                               ("borderWidth", JNum 2) ]);
          ("label", JObj [ ("show", JBool false) ]);
          ("emphasis", pieEmphasis isDarkMode);
          ("labelLine", JObj [ ("show", JBool false) ]);
          ("data", JArr pieData) ] ]) ]).

(** Lines 188-239. *)
Definition getDonutChartOption (isDarkMode : bool)
    (labels data colors : list JsVal) (labelField : JsVal)
    (urls : option (list JsVal)) : JsVal :=
  let pieData := mapi (pieDatum data urls) labels in
  JObj (getAnimationConfig ++
    [ ("tooltip", JObj [ ("trigger", JStr "item");
                         ("formatter", JFun "getDonutChartOption tooltip.formatter") ]);
      ("legend", getLegendConfig isDarkMode "bottom");
      ("color", JArr colors);
      ("series", JArr [ JObj
        [ ("name", labelField);
          ("type", JStr "pie");
          ("radius", JArr [JStr "40%"; JStr "70%"]);
          ("center", JArr [JStr "50%"; JStr "45%"]);
          ("avoidLabelOverlap", JBool false);
          ("itemStyle", JObj [ ("borderRadius", JNum 6);
                               ("borderColor", JStr "#fff");
                               ("borderWidth", JNum 2) ]);
          ("label", JObj [ ("show", JBool false) ]);
          ("emphasis", pieEmphasis isDarkMode);
          ("labelLine", JObj [ ("show", JBool false) ]);
          ("data", JArr pieData) ] ]) ]).

(** The argument of [getChartOption]. *)
Record Config := {
  type : string;
  labels : list JsVal;
  data : list JsVal;
  colors : option (list JsVal);
  labelField : JsVal;
  stackedData : JsVal;
  hasMultipleGroups : JsVal;
  urls : option (list JsVal)
}.

(** [colors && colors.length > 0 ? colors : this.defaultColors] *)
Definition chartColors (c : Config) : list JsVal :=
  match colors c with
  | Some (x :: r) => x :: r
  | _ => List.map JStr defaultColors
  end.

Section Dispatch.
Context {cm : Js.CaseMapping}.

(** The builders for the axis, funnel, scatter and stacked charts
    (lines 242-660) are taken as they are: [getChartOption] only calls
    them. *)
Definition Builder : Type :=
  bool -> list JsVal -> list JsVal -> list JsVal -> JsVal -> option (list JsVal) -> JsVal.
Definition StackedBuilder : Type :=
  bool -> JsVal -> list JsVal -> JsVal -> option (list JsVal) -> JsVal.

Variables getBarChartOption getColumnChartOption getLineChartOption
          getFunnelChartOption getScatterChartOption : Builder.
Variables getStackedVerticalChartOption getStackedHorizontalChartOption : StackedBuilder.

(** Lines 42-74.  The result comes with the new value of
    [this._currentUrls]. *)
Definition getChartOption (isDarkMode : bool) (config : Config) : JsVal * list JsVal :=
  let chartColors := chartColors config in
  let currentUrls := match urls config with Some u => u | None => [] end in
  let t := Js.toLowerCase (type config) in
  let simple (b : Builder) :=
    b isDarkMode (labels config) (data config) chartColors (labelField config) (urls config) in
  let stacked (b : StackedBuilder) :=
    b isDarkMode (stackedData config) chartColors (labelField config) (urls config) in
  (if String.eqb t "pie" then simple getPieChartOption
   else if String.eqb t "donut" then simple getDonutChartOption
   else if String.eqb t "bar" then simple getBarChartOption
   else if String.eqb t "column" then simple getColumnChartOption
   else if String.eqb t "line" then simple getLineChartOption
   else if String.eqb t "funnel" then simple getFunnelChartOption
   else if String.eqb t "scatter" then simple getScatterChartOption
   else if String.eqb t "stacked_vertical" then
     if truthy (hasMultipleGroups config)
     then stacked getStackedVerticalChartOption
     else simple getColumnChartOption
   else if String.eqb t "stacked_horizontal" then
     if truthy (hasMultipleGroups config)
     then stacked getStackedHorizontalChartOption
     else simple getBarChartOption
   else simple getPieChartOption,
   currentUrls).

End Dispatch.

(** The nine values the [switch] of [getChartOption] names. *)
Definition recognizedTypes : list string :=
  [ "pie"; "donut"; "bar"; "column"; "line"; "funnel"; "scatter";
    "stacked_vertical"; "stacked_horizontal" ].

(** [Number.prototype.toString] on a non-negative integer. *)
Definition decimal (n : nat) : string := NilZero.string_of_uint (Nat.to_uint n).

(** [(colors.length * 137.5) % 360] as the template literal prints it.
    The product is a multiple of one half, which binary floating point
    holds exactly, so twice the hue is computed on integers. *)
Definition hueString (len : nat) : string :=
  let twice := (len * 275) mod 720 in
  if Nat.even twice then decimal (twice / 2) else decimal (twice / 2) ++ ".5".

Definition hsl (len : nat) : string := "hsl(" ++ hueString len ++ ", 70%, 60%)".

(** The [while] loop of lines 758-761, at most [fuel] iterations. *)
Fixpoint pushColors (fuel dataLength : nat) (colors : list string) : list string :=
  match fuel with
  | 0 => colors
  | S fuel =>
      if Nat.ltb (length colors) dataLength
      then pushColors fuel dataLength (colors ++ [hsl (length colors)])
      else colors
  end.

(** Lines 756-763.  [dataLength] iterations are never all used. *)
Definition getDynamicColors (dataLength : nat) : list string :=
  firstn dataLength (pushColors dataLength dataLength defaultColors).

End Charts.

(** ** Predicates the statements below use *)

Module Props.
Import ShortKey.

(** Equality of keys up to letter case, in the words of the specification
    and for the letters A to Z: the strings have the same length and hold,
    position by position, the same character or the two cases of one
    letter. *)
Definition isUpperLetter (c : ascii) : bool :=
  (Nat.leb 65 (nat_of_ascii c) && Nat.leb (nat_of_ascii c) 90)%bool.

Definition sameLetter (a b : ascii) : bool :=
  (Ascii.eqb a b
   || (isUpperLetter a && Nat.eqb (nat_of_ascii b) (nat_of_ascii a + 32))
   || (isUpperLetter b && Nat.eqb (nat_of_ascii a) (nat_of_ascii b + 32)))%bool.

Fixpoint equalIgnoringCase (s t : string) : bool :=
  match s, t with
  | EmptyString, EmptyString => true
  | String a s', String b t' => (sameLetter a b && equalIgnoringCase s' t')%bool
  | _, _ => false
  end.

Section WithCaseMapping.
Context {cm : Js.CaseMapping}.

(** What is known of the case mappings of a browser, and assumed where a
    statement says so: mapping twice is mapping once, and on strings of
    ASCII characters the mappings are [asciiUpper] and [asciiLower]. *)
Definition idempotentCase : Prop :=
  (forall s, Js.toUpperCase (Js.toUpperCase s) = Js.toUpperCase s) /\
  (forall s, Js.toLowerCase (Js.toLowerCase s) = Js.toLowerCase s).

Definition agreesOnAscii : Prop :=
  forall s, Js.isAscii s = true ->
    Js.toUpperCase s = Js.asciiUpper s /\ Js.toLowerCase s = Js.asciiLower s.

(** Equality of keys up to letter case, as the script tests it. *)
Definition sameKey (k1 k2 : string) : Prop := Js.toUpperCase k1 = Js.toUpperCase k2.

(** A record as the [success] callbacks store it: key in upper case,
    command in lower case. *)
Definition stored (sk : Shortcut) : Prop :=
  Js.toUpperCase (key sk) = key sk /\ Js.toLowerCase (command sk) = command sk.

Definition state (p : Page) : KeysState := shortcutKeysState p.

(** A show-timer that has been armed and has neither fired nor been cleared. *)
Definition showPending (p : Page) (id : positive) : Prop :=
  timers p !! id = Some ShowTimer.

Definition noShowPending (p : Page) : Prop :=
  forall id, timers p !! id <> Some ShowTimer.

Definition isShow (e : Effect) : bool :=
  match e with ShowOverlay _ => true | _ => false end.

Definition isArm (e : Effect) : bool :=
  match e with SetTimeout _ ShowTimer => true | _ => false end.

Definition isNavigate (e : Effect) : bool :=
  match e with Navigate _ => true | _ => false end.

Definition isPreventDefault (e : Effect) : bool :=
  match e with PreventDefault => true | _ => false end.

(** Timer housekeeping other than arming the show-timer, and console
    output. *)
Definition isPlumbing (e : Effect) : bool :=
  match e with
  | ClearTimeout _ | SetTimeout _ (HideTimer _) | SetTimeout _ ObserverTimer
  | ConsoleError _ => true
  | _ => false
  end.

Definition count (f : Effect -> bool) (p : Page) : nat :=
  length (List.filter f (effects p)).

(** How often the overlay has been shown, a show-timer armed, a navigation
    started, a default action suppressed. *)
Definition shows (p : Page) : nat := count isShow p.
Definition arms (p : Page) : nat := count isArm p.
Definition navigations (p : Page) : nat := count isNavigate p.
Definition prevented (p : Page) : nat := count isPreventDefault p.

(** The overlay element is in the document and does not carry [hidden]. *)
Definition overlayVisible (p : Page) : Prop :=
  exists m, modal p = Some m /\ hidden m = false.

(** ... and its mutation observer is attached. *)
Definition overlayObserved (p : Page) : Prop :=
  exists m, modal p = Some m /\ hidden m = false /\ observerAttached m = true.

(** The state every close leaves behind. *)
Definition closed (p : Page) : Prop :=
  modalShown (state p) = false /\ activeModifier (state p) = None /\
  modifierHoldTimer (state p) = None /\ noShowPending p.


(** A keydown that carries the modifier. *)
Definition isAltDown (ev : Event) : bool :=
  match ev with KeyDown e => altKey e | _ => false end.

(** The request of [initShortcutKeys] or one of [refreshShortcutKeys]
    succeeds. *)
Definition isSuccess (ev : Event) : bool :=
  match ev with FetchSuccess _ | RefreshSuccess _ => true | _ => false end.

(** What holds of every page the events can lead to. *)
Record Inv (p : Page) : Prop := {
  inv_modifier : activeModifier (state p) = None \/ activeModifier (state p) = Some "alt";
  inv_handle : forall id, modifierHoldTimer (state p) = Some id ->
                 activeModifier (state p) = Some "alt";
  inv_pending : forall id, showPending p id ->
                  modifierHoldTimer (state p) = Some id /\ modalShown (state p) = false;
  inv_listening : activeModifier (state p) = Some "alt" -> listening p = true
}.

(** No event of the list is a keydown that carries the modifier. *)
Definition noAltDown (evs : list Event) : bool :=
  forallb (fun ev => negb (isAltDown ev)) evs.




End WithCaseMapping.

End Props.

(** ** The scenario of the specification, as concrete pages *)

Module Examples.
Import ShortKey.

(** All strings below are of ASCII characters: the pages are run with the
    case mappings on such strings. *)
#[local] Existing Instance Js.asciiCase.

(** The catalog with the one shortcut Alt+D to [/dashboard]. *)
Definition dashboard : RawShortcut :=
  {| raw_key := "D"; raw_command := "alt"; raw_title := "Dashboard";
     raw_section := None; raw_description := None; raw_page := "/dashboard" |}.

(** A shortcut with a section. *)
Definition leads : RawShortcut :=
  {| raw_key := "l"; raw_command := "Alt"; raw_title := "Leads";
     raw_section := Some "crm"; raw_description := Some "Open the leads";
     raw_page := "/leads" |}.

(** The modifier key itself goes down. *)
Definition altDown (focus : bool) : KeyEvent :=
  {| altKey := true; pressed := "Alt"; focusInTextEntry := focus |}.

(** The key D goes down with the modifier. *)
Definition altD (focus : bool) : KeyEvent :=
  {| altKey := true; pressed := "d"; focusInTextEntry := focus |}.

Definition start : Page := init false None.

(** The catalog has arrived and the handlers are bound. *)
Definition loadedTrace : list Event := [FetchSuccess [dashboard]].
Definition loaded : Page := run loadedTrace start.

(** Alt is held with the focus outside any text field: the timer is armed. *)
Definition holdingTrace : list Event := loadedTrace ++ [KeyDown (altDown false)].
Definition holding : Page := run holdingTrace start.

(** ... and the hold duration has elapsed: the overlay is up. *)
Definition overlayUpTrace : list Event := holdingTrace ++ [TimerFires 1%positive].
Definition overlayUp : Page := run overlayUpTrace start.


(** ... and the timer that attaches the observer has fired as well. *)
Definition observedTrace : list Event := overlayUpTrace ++ [TimerFires 2%positive].
Definition observed : Page := run observedTrace start.

(** A refresh has delivered the catalog while the first request is still
    under way. *)
Definition refreshedTrace : list Event := [RefreshSuccess [dashboard]].
Definition refreshed : Page := run refreshedTrace start.

(** A chart of a type the [switch] does not name, and builders to run
    [getChartOption] with. *)
Definition radar : Charts.Config :=
  {| Charts.type := "Radar";
     Charts.labels := [Charts.JStr "won"; Charts.JStr "lost"];
     Charts.data := [Charts.JNum 3];
     Charts.colors := Some [];
     Charts.labelField := Charts.JStr "Stage";
     Charts.stackedData := Charts.JUndefined;
     Charts.hasMultipleGroups := Charts.JBool false;
     Charts.urls := Some [Charts.JStr "/won"; Charts.JStr ""] |}.

Definition someBuilder (name : string) : Charts.Builder :=
  fun _ _ _ _ _ _ => Charts.JStr name.

Definition someStackedBuilder (name : string) : Charts.StackedBuilder :=
  fun _ _ _ _ _ => Charts.JStr name.

End Examples.

(** ** Further predicates on pages *)

Module More.
Import ShortKey Props.

Section WithCaseMapping.
Context {cm : Js.CaseMapping}.

(** A key event while the focus is in a text-entry element. *)
Definition isTyping (ev : Event) : bool :=
  match ev with
  | KeyDown e => focusInTextEntry e
  | KeyUp e => focusInTextEntry e
  | _ => false
  end.

(** A record of [data.shortcuts] that a pressed key [k] selects: same key
    up to letter case, command [alt] up to letter case. *)
Definition rawMatches (k : string) (r : RawShortcut) : bool :=
  (String.eqb (Js.toUpperCase (raw_key r)) (Js.toUpperCase k)
   && String.eqb (Js.toLowerCase (raw_command r)) "alt")%bool.

(** The overlay element is in the document with its observer attached. *)
Definition observerOn (p : Page) : Prop :=
  exists m, modal p = Some m /\ observerAttached m = true.

(** Timer ids are handed out in increasing order: the pending ones and the
    stored handle lie below the next one. *)
Definition fresh (p : Page) : Prop :=
  (forall id t, timers p !! id = Some t -> (id < nextTimerId p)%positive) /\
  (forall id, modifierHoldTimer (state p) = Some id -> (id < nextTimerId p)%positive).

(** The keydown is a hit: the handlers are bound, the event carries the
    modifier, one is held, and the pressed key is in the catalog. *)
Definition isHit (p : Page) (ev : Event) : Prop :=
  exists e m, ev = KeyDown e /\ listening p = true /\ altKey e = true /\
    Js.truthy (activeModifier (state p)) = true /\
    lookup (shortcutKeysCache p) (Js.toUpperCase (pressed e)) = Some m.

(** What the page load sets up: whether the handlers are bound and whether
    the first request is still under way. *)
Definition booted (p : Page) : bool * bool := (listening p, fetchInFlight p).

End WithCaseMapping.

End More.

(** ** horilla_charts.js: series, and the click and hover handlers *)

Module ChartsMore.
Import Charts.

Fixpoint lookupField (name : string) (fields : list (string * JsVal)) : JsVal :=
  match fields with
  | [] => JUndefined
  | (k, v) :: rest => if String.eqb k name then v else lookupField name rest
  end.

(** [v.name] where [v] is neither [null] nor [undefined]: the field of an
    object, [undefined] on a number, a string, an array or a function. *)
Definition prop (name : string) (v : JsVal) : JsVal :=
  match v with
  | JObj fields => lookupField name fields
  | _ => JUndefined
  end.

(** [v === s] for a string literal [s]. *)
Definition isString (s : string) (v : JsVal) : bool :=
  match v with
  | JStr t => String.eqb t s
  | _ => false
  end.

(** [colors[index % colors.length]]: with no colours the remainder is [NaN]
    and the element [undefined]. *)
Definition colorAt (colors : list JsVal) (i : nat) : JsVal :=
  match colors with
  | [] => JUndefined
  | _ => index colors (i mod length colors)
  end.

(** The arrow function of lines 243-251. *)
Definition columnSeriesItem (data colors : list JsVal) (label : JsVal) (i : nat) : JsVal :=
  JObj [ ("name", label);
         ("type", JStr "bar");
         ("data", JArr [if truthy (index data i) then index data i else JNum 0]);
         ("itemStyle", JObj [ ("color", colorAt colors i);
                              ("borderRadius", JArr [JNum 4; JNum 4; JNum 0; JNum 0]) ]) ].

(** [series] in [getColumnChartOption]. *)
Definition columnSeries (labels data colors : list JsVal) : list JsVal :=
  mapi (columnSeriesItem data colors) labels.

(** The arrow function of lines 298-306. *)
Definition barSeriesItem (data colors : list JsVal) (label : JsVal) (i : nat) : JsVal :=
  JObj [ ("name", label);
         ("type", JStr "bar");
         ("data", JArr [if truthy (index data i) then index data i else JNum 0]);
         ("itemStyle", JObj [ ("color", colorAt colors i);
                              ("borderRadius", JArr [JNum 0; JNum 4; JNum 4; JNum 0]) ]) ].

(** [series] in [getBarChartOption]. *)
Definition barSeries (labels data colors : list JsVal) : list JsVal :=
  mapi (barSeriesItem data colors) labels.

(** [seriesItem.name]: a [TypeError] ([None]) on [null] and [undefined]. *)
Definition propOrThrow (name : string) (v : JsVal) : option JsVal :=
  match v with
  | JUndefined | JNull => None
  | _ => Some (prop name v)
  end.

(** The arrow function of lines 532-544, for the [count] series of
    [stackedData.series]. *)
Definition stackedVerticalSeriesItem (count : nat) (seriesItem : JsVal) (i : nat)
    : option JsVal :=
  match propOrThrow "name" seriesItem, propOrThrow "data" seriesItem with
  | Some name, Some data =>
      Some (JObj [ ("name", name);
                   ("type", JStr "bar");
                   ("stack", JStr "total");
                   ("data", data);
                   ("barWidth", JStr "60%");
                   ("itemStyle", JObj [ ("borderRadius",
                      if Nat.eqb (S i) count
                      then JArr [JNum 4; JNum 4; JNum 0; JNum 0]
                      else JArr [JNum 0; JNum 0; JNum 0; JNum 0]) ]);
                   ("emphasis", JObj [ ("focus", JStr "series") ]) ])
  | _, _ => None
  end.

(** [array.map(f)] where [f] may throw. *)
Fixpoint mapiThrow_from {A B} (f : A -> nat -> option B) (i : nat) (l : list A)
    : option (list B) :=
  match l with
  | [] => Some []
  | x :: r =>
      match f x i with
      | Some y =>
          match mapiThrow_from f (S i) r with
          | Some ys => Some (y :: ys)
          | None => None
          end
      | None => None
      end
  end.

(** What lines 527-544 of [getStackedVerticalChartOption] come to. *)
Inductive StackedSeries :=
| NoData (series : list JsVal)   (* the guard of lines 528-530 holds: the function returns
                                    getColumnChartOption(['No Data'], [0], colors, labelField),
                                    whose series these are *)
| Stacked (series : list JsVal)  (* the constant [series] of lines 532-544 has been built *)
| TypeError                      (* the arrow function has thrown, or [series.map] is not a function *)
| NotFollowed.                   (* [stackedData.series] is an object or a function, with a
                                    [length] and a [map] of its own, or one of its entries is
                                    a function, with a [name] of its own *)

Definition isFunction (v : JsVal) : bool :=
  match v with JFun _ => true | _ => false end.

(** Lines 527-544: the guard, then [stackedData.series.map].  A value that
    is falsy, or whose [categories] or [series] is falsy, or whose [series]
    has length 0, gives the chart without data; a number, a boolean or a
    string has no [map]. *)
Definition stackedVerticalSeries (stackedData : JsVal) (colors : list JsVal)
    : StackedSeries :=
  let noData := NoData (columnSeries [JStr "No Data"] [JNum 0] colors) in
  if negb (truthy stackedData) then noData
  else if negb (truthy (prop "categories" stackedData)) then noData
  else match prop "series" stackedData with
       | JArr [] => noData
       | JArr items =>
           if existsb isFunction items then NotFollowed
           else match mapiThrow_from (stackedVerticalSeriesItem (length items)) 0 items with
                | Some series => Stacked series
                | None => TypeError
                end
       | JObj _ | JFun _ => NotFollowed
       | v => if truthy v then TypeError else noData
       end.

(** What the chart library hands to a handler: [params.data],
    [params.seriesIndex], [params.dataIndex]; an index is a non-negative
    integer or [undefined]. *)
Record Params := {
  params_data : JsVal;
  seriesIndex : option nat;
  dataIndex : option nat
}.

(** [i !== undefined && i < urls.length], and [urls[i]] then. *)
Definition urlAt (urls : list JsVal) (i : option nat) : option JsVal :=
  match i with
  | Some n => if Nat.ltb n (length urls) then Some (index urls n) else None
  | None => None
  end.

(** Lines 684-694. *)
Definition clickTarget (urls : list JsVal) (params : Params) : JsVal :=
  let d := params_data params in
  if (truthy d && truthy (prop "url" d))%bool then prop "url" d
  else match urlAt urls (seriesIndex params) with
       | Some u => u
       | None =>
           match urlAt urls (dataIndex params) with
           | Some u => u
           | None => JNull
           end
       end.

Inductive Navigation :=
| HtmxGet (url : JsVal)        (* a temporary link with [hx-get], processed and clicked *)
| LocationHref (url : JsVal).  (* window.location.href = url *)

Definition destination (n : Navigation) : JsVal :=
  match n with
  | HtmxGet u => u
  | LocationHref u => u
  end.

(** Lines 683-713: the click handler. *)
Definition onClick (htmxDefined : bool) (urls : list JsVal) (params : Params)
    : option Navigation :=
  let targetUrl := clickTarget urls params in
  if (truthy targetUrl && negb (isString "#" targetUrl))%bool
  then Some (if htmxDefined then HtmxGet targetUrl else LocationHref targetUrl)
  else None.

(** [i < urls.length], false for [undefined]. *)
Definition below (urls : list JsVal) (i : option nat) : bool :=
  match i with
  | Some n => Nat.ltb n (length urls)
  | None => false
  end.

(** Lines 715-727: the hover handler; [true] when it sets the cursor to
    [pointer]. *)
Definition onMouseover (urls : list JsVal) (params : Params) : bool :=
  let d := params_data params in
  if (truthy d && truthy (prop "url" d) && negb (isString "#" (prop "url" d)))%bool
  then true
  else (below urls (dataIndex params) || below urls (seriesIndex params))%bool.

Record Handlers := {
  click : Params -> option Navigation;
  mouseover : Params -> bool
}.

(** Lines 680-732: nothing is attached without urls. *)
Definition attachClickHandler (htmxDefined : bool) (urls : option (list JsVal))
    : option Handlers :=
  match urls with
  | None | Some [] => None
  | Some u => Some {| click := onClick htmxDefined u; mouseover := onMouseover u |}
  end.

(** The slices of a pie or a donut: [series[0].data] of the option. *)
Definition slices (option : JsVal) : JsVal :=
  prop "data" (index (match prop "series" option with JArr s => s | _ => [] end) 0).

End ChartsMore.

(** * Proofs *)

Import ShortKey Props More.

(** ** Strings *)

Lemma upper_char_idem c : Js.upper_char (Js.upper_char c) = Js.upper_char c.
Proof. destruct c as [[] [] [] [] [] [] [] []]; reflexivity. Qed.

Lemma lower_char_idem c : Js.lower_char (Js.lower_char c) = Js.lower_char c.
Proof. destruct c as [[] [] [] [] [] [] [] []]; reflexivity. Qed.

Lemma asciiUpper_idem s : Js.asciiUpper (Js.asciiUpper s) = Js.asciiUpper s.
Proof. induction s as [|c s IH]; simpl; [reflexivity|]. now rewrite upper_char_idem, IH. Qed.

Lemma asciiLower_idem s : Js.asciiLower (Js.asciiLower s) = Js.asciiLower s.
Proof. induction s as [|c s IH]; simpl; [reflexivity|]. now rewrite lower_char_idem, IH. Qed.

(** The ASCII mappings have the two properties assumed of the browser's. *)
Lemma asciiCase_idempotent : @idempotentCase Js.asciiCase.
Proof. split; [apply asciiUpper_idem | apply asciiLower_idem]. Qed.

Lemma asciiCase_agrees : @agreesOnAscii Js.asciiCase.
Proof. intros s _. split; reflexivity. Qed.

Lemma nat_of_upper_char c :
  nat_of_ascii (Js.upper_char c) =
  if (Nat.leb 97 (nat_of_ascii c) && Nat.leb (nat_of_ascii c) 122)%bool
  then nat_of_ascii c - 32 else nat_of_ascii c.
Proof.
  unfold Js.upper_char. cbv zeta.
  destruct (Nat.leb 97 (nat_of_ascii c) && Nat.leb (nat_of_ascii c) 122)%bool; [|reflexivity].
  apply nat_ascii_embedding. pose proof (nat_ascii_bounded c). lia.
Qed.

Lemma nat_of_ascii_inj a b : nat_of_ascii a = nat_of_ascii b -> a = b.
Proof.
  intros H. rewrite <- (ascii_nat_embedding a), <- (ascii_nat_embedding b). now rewrite H.
Qed.

(** Two characters have the same upper case exactly when they are the same
    letter in the sense of the specification. *)
Lemma upper_char_sameLetter a b :
  Js.upper_char a = Js.upper_char b <-> sameLetter a b = true.
Proof.
  assert (E : Js.upper_char a = Js.upper_char b <->
              nat_of_ascii (Js.upper_char a) = nat_of_ascii (Js.upper_char b)).
  { split; [now intros ->|apply nat_of_ascii_inj]. }
  rewrite E, !nat_of_upper_char. unfold sameLetter, isUpperLetter.
  assert (Ea : Ascii.eqb a b = Nat.eqb (nat_of_ascii a) (nat_of_ascii b)).
  { destruct (Ascii.eqb_spec a b) as [->|Hne].
    - now rewrite Nat.eqb_refl.
    - symmetry. apply Nat.eqb_neq. intros H. apply Hne. now apply nat_of_ascii_inj. }
  rewrite Ea.
  pose proof (nat_ascii_bounded a) as Hx. pose proof (nat_ascii_bounded b) as Hy.
  clear E Ea. revert Hx Hy. generalize (nat_of_ascii a) (nat_of_ascii b). intros x y Hx Hy.
  rewrite !orb_true_iff, !andb_true_iff, !Nat.leb_le, !Nat.eqb_eq.
  destruct (Nat.leb_spec 97 x), (Nat.leb_spec x 122), (Nat.leb_spec 97 y), (Nat.leb_spec y 122);
    cbn [andb]; lia.
Qed.

Lemma asciiUpper_equalIgnoringCase s : forall t,
  Js.asciiUpper s = Js.asciiUpper t <-> equalIgnoringCase s t = true.
Proof.
  induction s as [|a s IH]; intros [|b t]; cbn; try easy.
  rewrite andb_true_iff, <- IH, <- upper_char_sameLetter.
  split; [intros [= -> ->]; auto | intros [-> ->]; reflexivity].
Qed.

Lemma sameLetter_ascii a b :
  sameLetter a b = true -> Js.isAsciiChar b = true -> Js.isAsciiChar a = true.
Proof.
  unfold sameLetter, isUpperLetter, Js.isAsciiChar. intros H Hb.
  apply Nat.ltb_lt in Hb. apply Nat.ltb_lt.
  destruct (Ascii.eqb_spec a b) as [->|_]; [assumption|]. cbn [orb] in H.
  apply orb_prop in H as [H|H]; apply andb_prop in H as [H1 H2];
    apply andb_prop in H1 as [H3 H4];
    apply Nat.leb_le in H3, H4; apply Nat.eqb_eq in H2; lia.
Qed.

Lemma equalIgnoringCase_ascii s : forall t,
  equalIgnoringCase s t = true -> Js.isAscii t = true -> Js.isAscii s = true.
Proof.
  induction s as [|a s IH]; intros [|b t]; cbn; try easy.
  intros H Ht. apply andb_prop in H as [H1 H2]. apply andb_prop in Ht as [Hb Ht].
  apply andb_true_intro. eauto using sameLetter_ascii.
Qed.

(** *** Tactics *)

Ltac page p := destruct p as [[shown am ht] cache mac fl li mo ti nx eff].

(* call-by-value evaluation of the setters and of the small operations *)
Ltac ops :=
  cbv beta iota zeta delta
    [showShortcutModal createShortcutModal
     setupModalObserver removeClassHidden addClassHidden classChanged
     closeShortcutModal resetState cancelHoldTimer clearTimeout setTimeout
     fetchSucceeded fetchFailed refreshSucceeded refreshFailed fetch_completed
     set_modifierHoldTimer set_activeModifier set_modalShown emit set_timers
     set_modal set_cache set_state
     shortcutKeysState shortcutKeysCache isMac fetchInFlight listening modal timers
     nextTimerId effects modalShown activeModifier modifierHoldTimer hidden
     observerAttached fst snd negb andb orb altKey pressed focusInTextEntry
     state showPending noShowPending] in *.

Ltac inv_intro H :=
  let Hm := fresh "Hm" in let Hh := fresh "Hh" in let Hp := fresh "Hp" in
  let Hl := fresh "Hl" in
  destruct H as [Hm Hh Hp Hl].

Ltac map_facts :=
  repeat match goal with
  | H : delete ?i ?m !! ?j = Some _ |- _ =>
      apply lookup_delete_Some in H; destruct H
  | H : <[?i := ?x]> ?m !! ?j = Some _ |- _ =>
      apply lookup_insert_Some in H; destruct H as [[? ?]|[? ?]]
  end.

Ltac inv_done :=
  split; ops; intros; map_facts; simplify_eq;
  try match goal with
  | Hp : forall id, _ !! id = Some ShowTimer -> _, H : _ !! _ = Some ShowTimer |- _ =>
      destruct (Hp _ H); simplify_eq
  end;
  eauto.

Ltac np_done :=
  ops; intros; intro; map_facts; simplify_eq;
  try match goal with
  | Hp : forall id, _ !! id = Some ShowTimer -> _, H : _ !! _ = Some ShowTimer |- _ =>
      destruct (Hp _ H); simplify_eq
  | Hn : forall id, _ !! id <> Some ShowTimer, H : _ !! _ = Some ShowTimer |- _ =>
      destruct (Hn _ H)
  end.

Ltac fresh_done :=
  split; ops; intros; map_facts; simplify_eq;
  repeat match goal with
  | Hf : forall id t, _ !! id = Some t -> _, H : _ !! _ = Some _ |- _ =>
      pose proof (Hf _ _ H); clear H
  | Hf : forall id, Some _ = Some id -> _ |- _ =>
      pose proof (Hf _ eq_refl); clear Hf
  end;
  try discriminate; try lia.

(** ** short_key.js *)

Section Keys.
Context {cm : Js.CaseMapping}.

Lemma init_inv mac existing : Inv (init mac existing).
Proof. split; cbn; auto; try discriminate. Qed.

Lemma cancelHoldTimer_inv p : Inv p -> Inv (cancelHoldTimer p).
Proof.
  intros H. inv_intro H. page p. destruct ht; ops; inv_done.
Qed.

Lemma resetState_inv p : Inv p -> Inv (resetState p).
Proof.
  intros H. inv_intro H. page p. destruct ht; ops; inv_done.
Qed.

Lemma setTimeout_inv t p : t <> ShowTimer -> Inv p -> Inv (snd (setTimeout t p)).
Proof.
  intros Ht H. inv_intro H. page p. ops. inv_done.
Qed.

Lemma closeShortcutModal_inv p : Inv p -> Inv (closeShortcutModal p).
Proof.
  intros H. unfold closeShortcutModal.
  destruct (setTimeout _ p) as [i q] eqn:E.
  apply resetState_inv. change q with (snd (i, q)). rewrite <- E.
  now apply setTimeout_inv.
Qed.

Lemma set_modal_inv m p : Inv p -> Inv (set_modal m p).
Proof. intros H. inv_intro H. page p. ops. inv_done. Qed.

Lemma emit_inv e p : Inv p -> Inv (emit e p).
Proof. intros H. inv_intro H. page p. ops. inv_done. Qed.

Lemma classChanged_inv p : Inv p -> Inv (classChanged p).
Proof.
  intros H. unfold classChanged.
  destruct (modal p) as [[[] []]|]; cbn [observerAttached hidden]; auto using resetState_inv.
Qed.

Lemma addClassHidden_inv p : Inv p -> Inv (addClassHidden p).
Proof.
  intros H. unfold addClassHidden.
  destruct (modal p) as [[[] ?]|]; cbn [hidden]; auto using classChanged_inv, set_modal_inv.
Qed.

Lemma removeClassHidden_inv p : Inv p -> Inv (removeClassHidden p).
Proof.
  intros H. unfold removeClassHidden.
  destruct (modal p) as [[[] ?]|]; cbn [hidden]; auto using classChanged_inv, set_modal_inv.
Qed.

Lemma setupModalObserver_inv p : Inv p -> Inv (setupModalObserver p).
Proof.
  intros H. unfold setupModalObserver.
  destruct (modal p) as [[? []]|]; cbn [observerAttached]; auto using set_modal_inv.
Qed.

Lemma createShortcutModal_inv p : Inv p -> Inv (createShortcutModal p).
Proof.
  intros H. unfold createShortcutModal.
  destruct (modal p); auto using setupModalObserver_inv.
  apply setTimeout_inv; [discriminate|]. now apply set_modal_inv.
Qed.

(** *** No show-timer pending *)

Lemma cancelHoldTimer_quiet p : noShowPending p -> noShowPending (cancelHoldTimer p).
Proof. intros Hn. page p. destruct ht; np_done. Qed.

Lemma cancelHoldTimer_clears p : Inv p -> noShowPending (cancelHoldTimer p).
Proof. intros H. inv_intro H. page p. destruct ht; np_done. Qed.

Lemma resetState_quiet p : noShowPending p -> noShowPending (resetState p).
Proof. intros Hn. page p. destruct ht; np_done. Qed.

Lemma resetState_clears p : Inv p -> noShowPending (resetState p).
Proof. intros H. inv_intro H. page p. destruct ht; np_done. Qed.

Lemma setTimeout_quiet t p :
  t <> ShowTimer -> noShowPending p -> noShowPending (snd (setTimeout t p)).
Proof. intros Ht Hn. page p. np_done. Qed.

Lemma closeShortcutModal_quiet p : noShowPending p -> noShowPending (closeShortcutModal p).
Proof.
  intros H. unfold closeShortcutModal.
  destruct (setTimeout _ p) as [i q] eqn:E.
  apply resetState_quiet. change q with (snd (i, q)). rewrite <- E.
  now apply setTimeout_quiet.
Qed.

Lemma closeShortcutModal_clears p : Inv p -> noShowPending (closeShortcutModal p).
Proof.
  intros H. unfold closeShortcutModal.
  destruct (setTimeout _ p) as [i q] eqn:E.
  apply resetState_clears. change q with (snd (i, q)). rewrite <- E.
  now apply setTimeout_inv.
Qed.

Lemma set_modal_quiet m p : noShowPending p -> noShowPending (set_modal m p).
Proof. intros Hn. page p. np_done. Qed.

Lemma emit_quiet e p : noShowPending p -> noShowPending (emit e p).
Proof. intros Hn. page p. np_done. Qed.

Lemma classChanged_quiet p : noShowPending p -> noShowPending (classChanged p).
Proof.
  intros H. unfold classChanged.
  destruct (modal p) as [[[] []]|]; cbn [observerAttached hidden]; auto using resetState_quiet.
Qed.

Lemma addClassHidden_quiet p : noShowPending p -> noShowPending (addClassHidden p).
Proof.
  intros H. unfold addClassHidden.
  destruct (modal p) as [[[] ?]|]; cbn [hidden]; auto using classChanged_quiet, set_modal_quiet.
Qed.

Lemma removeClassHidden_quiet p : noShowPending p -> noShowPending (removeClassHidden p).
Proof.
  intros H. unfold removeClassHidden.
  destruct (modal p) as [[[] ?]|]; cbn [hidden]; auto using classChanged_quiet, set_modal_quiet.
Qed.

Lemma setupModalObserver_quiet p : noShowPending p -> noShowPending (setupModalObserver p).
Proof.
  intros H. unfold setupModalObserver.
  destruct (modal p) as [[? []]|]; cbn [observerAttached]; auto using set_modal_quiet.
Qed.

Lemma createShortcutModal_quiet p : noShowPending p -> noShowPending (createShortcutModal p).
Proof.
  intros H. unfold createShortcutModal.
  destruct (modal p); auto using setupModalObserver_quiet.
  apply setTimeout_quiet; [discriminate|]. now apply set_modal_quiet.
Qed.

Lemma set_modalShown_inv b p : Inv p -> noShowPending p -> Inv (set_modalShown b p).
Proof.
  intros H Hn. inv_intro H. page p. ops. split; ops; intros; eauto.
  now destruct (Hn id).
Qed.

Lemma showShortcutModal_inv keys p :
  Inv p -> noShowPending p -> Inv (showShortcutModal keys p).
Proof.
  intros H Hn. unfold showShortcutModal.
  apply emit_inv, set_modalShown_inv.
  - auto using removeClassHidden_inv, createShortcutModal_inv.
  - auto using removeClassHidden_quiet, createShortcutModal_quiet.
Qed.

(* the page right after a pending timer has left the table *)
Lemma fired_inv id t p :
  Inv p -> timers p !! id = Some t ->
  Inv (set_timers (delete id (timers p)) (nextTimerId p) p).
Proof. intros H Ht. inv_intro H. page p. ops. inv_done. Qed.

Lemma fired_show_quiet id p :
  Inv p -> timers p !! id = Some ShowTimer ->
  noShowPending (set_timers (delete id (timers p)) (nextTimerId p) p).
Proof.
  intros H Ht. inv_intro H. page p. ops. intros j Hj.
  apply lookup_delete_Some in Hj as [Hne Hj].
  destruct (Hp _ Ht), (Hp _ Hj). congruence.
Qed.

Lemma timerFires_inv id p : Inv p -> Inv (timerFires id p).
Proof.
  intros H. unfold timerFires.
  destruct (timers p !! id) as [[|[]|]|] eqn:Ht; auto.
  - apply showShortcutModal_inv; eauto using fired_inv, fired_show_quiet.
  - eauto using addClassHidden_inv, fired_inv.
  - eauto using fired_inv.
  - eauto using setupModalObserver_inv, fired_inv.
Qed.

Lemma truthy_inv p :
  Inv p -> Js.truthy (activeModifier (state p)) = true <-> activeModifier (state p) = Some "alt".
Proof.
  intros H. destruct (inv_modifier _ H) as [-> | ->]; cbn; split; congruence.
Qed.

Lemma onKeyDown_inv e p : Inv p -> listening p = true -> Inv (onKeyDown e p).
Proof.
  intros H Hli. unfold onKeyDown.
  destruct (altKey e); cbn [andb]; [|now rewrite andb_false_r].
  rewrite andb_true_r.
  destruct (Js.truthy (activeModifier (shortcutKeysState p))) eqn:Ht; cbn [negb].
  - pose proof (cancelHoldTimer_inv _ H) as Hc.
    destruct (lookup _ _); [|assumption].
    destruct (focusInTextEntry e); auto using emit_inv, closeShortcutModal_inv.
  - destruct (focusInTextEntry e).
    + inv_intro H. page p. ops. inv_done.
    + destruct (negb _ && negb _)%bool eqn:Hg.
      * apply andb_prop in Hg as [Hs Hh].
        inv_intro H. page p. ops.
        destruct shown; [discriminate|]. destruct ht; [discriminate|].
        inv_done.
      * inv_intro H. page p. ops. inv_done.
Qed.

Lemma onKeyUp_inv e p : Inv p -> Inv (onKeyUp e p).
Proof.
  intros H. unfold onKeyUp.
  destruct (negb _ && _)%bool; [|assumption].
  inv_intro H. page p. destruct ht; ops; inv_done.
Qed.

Lemma step_inv ev p : Inv p -> Inv (step ev p).
Proof.
  intros H. destruct ev as [d| |d| |e|e|id| |]; cbn [step].
  - destruct (fetchInFlight p); [|assumption].
    inv_intro H. page p. ops. split; ops; auto.
  - destruct (fetchInFlight p); [|assumption].
    inv_intro H. page p. ops. split; ops; auto.
  - inv_intro H. page p. ops. split; ops; auto.
  - now apply emit_inv.
  - destruct (listening p) eqn:Hl; auto using onKeyDown_inv.
  - destruct (listening p); auto using onKeyUp_inv.
  - now apply timerFires_inv.
  - now apply closeShortcutModal_inv.
  - now apply addClassHidden_inv.
Qed.

Lemma run_inv evs : forall p, Inv p -> Inv (run evs p).
Proof. induction evs as [|ev evs IH]; cbn [run]; auto using step_inv. Qed.

Lemma reachable_inv p : reachable p -> Inv p.
Proof. intros (mac & ex & evs & ->). apply run_inv, init_inv. Qed.

(** *** Counting effects *)

Section Count.
Variable f : Effect -> bool.
Hypothesis f_plumbing : forall e, isPlumbing e = true -> f e = false.

Lemma count_emit e p : count f (emit e p) = count f p + (if f e then 1 else 0).
Proof.
  unfold count, emit; cbn [effects].
  rewrite List.filter_app, List.length_app. cbn. now destruct (f e).
Qed.

Lemma count_emit_plumbing e p : isPlumbing e = true -> count f (emit e p) = count f p.
Proof. intros H. rewrite count_emit, (f_plumbing _ H). lia. Qed.

Lemma count_set_state s p : count f (set_state s p) = count f p.
Proof. reflexivity. Qed.

Lemma count_set_modal m p : count f (set_modal m p) = count f p.
Proof. reflexivity. Qed.


Lemma count_cancelHoldTimer p : count f (cancelHoldTimer p) = count f p.
Proof.
  unfold cancelHoldTimer. destruct (modifierHoldTimer _); [|reflexivity].
  unfold set_modifierHoldTimer, clearTimeout.
  now rewrite count_set_state, count_emit_plumbing.
Qed.

Lemma count_resetState p : count f (resetState p) = count f p.
Proof. unfold resetState. now rewrite count_cancelHoldTimer. Qed.

Lemma count_setTimeout t p :
  t <> ShowTimer -> count f (snd (setTimeout t p)) = count f p.
Proof.
  intros Ht. unfold setTimeout; cbn [snd].
  rewrite count_emit_plumbing; [reflexivity|]. now destruct t.
Qed.

Lemma count_closeShortcutModal p : count f (closeShortcutModal p) = count f p.
Proof.
  unfold closeShortcutModal.
  destruct (setTimeout _ p) as [i q] eqn:E.
  rewrite count_resetState. change q with (snd (i, q)). rewrite <- E.
  now apply count_setTimeout.
Qed.

Lemma count_classChanged p : count f (classChanged p) = count f p.
Proof.
  unfold classChanged.
  destruct (modal p) as [[[] []]|]; cbn [observerAttached hidden];
    auto using count_resetState.
Qed.

Lemma count_addClassHidden p : count f (addClassHidden p) = count f p.
Proof.
  unfold addClassHidden.
  destruct (modal p) as [[[] ?]|]; cbn [hidden]; auto.
  now rewrite count_classChanged.
Qed.

Lemma count_removeClassHidden p : count f (removeClassHidden p) = count f p.
Proof.
  unfold removeClassHidden.
  destruct (modal p) as [[[] ?]|]; cbn [hidden]; auto.
  now rewrite count_classChanged.
Qed.

Lemma count_setupModalObserver p : count f (setupModalObserver p) = count f p.
Proof.
  unfold setupModalObserver.
  destruct (modal p) as [[? []]|]; cbn [observerAttached]; auto.
Qed.

Lemma count_createShortcutModal p : count f (createShortcutModal p) = count f p.
Proof.
  unfold createShortcutModal.
  destruct (modal p); auto using count_setupModalObserver.
  now rewrite count_setTimeout.
Qed.

Lemma count_showShortcutModal keys p :
  count f (showShortcutModal keys p) = count f p + (if f (ShowOverlay keys) then 1 else 0).
Proof.
  unfold showShortcutModal, set_modalShown.
  now rewrite count_emit, count_set_state, count_removeClassHidden,
    count_createShortcutModal.
Qed.

Lemma count_onKeyUp e p : count f (onKeyUp e p) = count f p.
Proof.
  unfold onKeyUp. destruct (negb _ && _)%bool; [|reflexivity].
  now rewrite count_cancelHoldTimer.
Qed.

Lemma count_timerFires_quiet id p :
  noShowPending p -> count f (timerFires id p) = count f p.
Proof.
  intros Hn. unfold timerFires.
  destruct (timers p !! id) as [[|[]|]|] eqn:Ht; auto.
  - destruct (Hn _ Ht).
  - now rewrite count_addClassHidden.
  - now rewrite count_setupModalObserver.
Qed.

(** Without a keydown that carries the modifier, and with no show-timer
    pending, nothing but plumbing happens. *)
Lemma count_step_quiet ev p :
  noShowPending p -> isAltDown ev = false -> count f (step ev p) = count f p.
Proof.
  intros Hn Hev. destruct ev as [d| |d| |e|e|id| |]; cbn [step].
  - now destruct (fetchInFlight p).
  - destruct (fetchInFlight p); [|reflexivity].
    unfold fetchFailed. cbn. unfold count; cbn [effects].
    rewrite List.filter_app, List.length_app. cbn.
    rewrite (f_plumbing (ConsoleError _)); [cbn; lia|reflexivity].
  - reflexivity.
  - unfold refreshFailed. now rewrite count_emit_plumbing.
  - destruct (listening p); [|reflexivity].
    cbn in Hev. unfold onKeyDown. rewrite Hev. cbn. now rewrite andb_false_r.
  - destruct (listening p); auto using count_onKeyUp.
  - now apply count_timerFires_quiet.
  - apply count_closeShortcutModal.
  - apply count_addClassHidden.
Qed.

End Count.

Lemma plumbing_isShow e : isPlumbing e = true -> isShow e = false.
Proof. now destruct e as [? []| | | | |]. Qed.
Lemma plumbing_isArm e : isPlumbing e = true -> isArm e = false.
Proof. now destruct e as [? []| | | | |]. Qed.
Lemma plumbing_isNavigate e : isPlumbing e = true -> isNavigate e = false.
Proof. now destruct e as [? []| | | | |]. Qed.
Lemma plumbing_isPreventDefault e : isPlumbing e = true -> isPreventDefault e = false.
Proof. now destruct e as [? []| | | | |]. Qed.

Lemma onKeyUp_quiet e p : noShowPending p -> noShowPending (onKeyUp e p).
Proof.
  intros Hn. unfold onKeyUp. destruct (negb _ && _)%bool; [|assumption].
  apply cancelHoldTimer_quiet. page p. np_done.
Qed.

Lemma timerFires_quiet id p : noShowPending p -> noShowPending (timerFires id p).
Proof.
  intros Hn. unfold timerFires.
  destruct (timers p !! id) as [t|] eqn:Ht; [|assumption].
  assert (Hq : noShowPending (set_timers (delete id (timers p)) (nextTimerId p) p)).
  { page p. np_done. }
  destruct t as [|[]|]; auto using addClassHidden_quiet, setupModalObserver_quiet.
  destruct (Hn _ Ht).
Qed.

Lemma step_quiet ev p :
  noShowPending p -> isAltDown ev = false -> noShowPending (step ev p).
Proof.
  intros Hn Hev. destruct ev as [d| |d| |e|e|id| |]; cbn [step].
  - destruct (fetchInFlight p); [|assumption]. page p. np_done.
  - destruct (fetchInFlight p); [|assumption]. page p. np_done.
  - page p. np_done.
  - now apply emit_quiet.
  - destruct (listening p); [|assumption].
    cbn in Hev. unfold onKeyDown. rewrite Hev. cbn. now rewrite andb_false_r.
  - destruct (listening p); auto using onKeyUp_quiet.
  - now apply timerFires_quiet.
  - now apply closeShortcutModal_quiet.
  - now apply addClassHidden_quiet.
Qed.

(** Once no show-timer is pending, the overlay is not shown again before a
    keydown carries the modifier. *)
Lemma run_quiet evs : forall p,
  noShowPending p -> forallb (fun ev => negb (isAltDown ev)) evs = true ->
  noShowPending (run evs p) /\ shows (run evs p) = shows p /\ arms (run evs p) = arms p.
Proof.
  induction evs as [|ev evs IH]; cbn [run forallb]; intros p Hn Hevs; [auto|].
  apply andb_prop in Hevs as [Hev Hevs]. apply negb_true_iff in Hev.
  destruct (IH (step ev p)) as (H1 & H2 & H3); auto using step_quiet.
  split; [assumption|]. unfold shows, arms in *.
  rewrite H2, H3, !count_step_quiet; auto using plumbing_isShow, plumbing_isArm.
Qed.

(** *** What the operations leave alone *)

Lemma cancelHoldTimer_frame p :
  let q := cancelHoldTimer p in
  shortcutKeysCache q = shortcutKeysCache p /\ listening q = listening p /\
  modal q = modal p /\
  modalShown (state q) = modalShown (state p) /\
  activeModifier (state q) = activeModifier (state p) /\
  modifierHoldTimer (state q) = None.
Proof. page p. destruct ht; ops; auto 10. Qed.

Lemma resetState_state p :
  shortcutKeysState (resetState p) =
  {| modalShown := false; activeModifier := None; modifierHoldTimer := None |}.
Proof. page p. destruct ht; reflexivity. Qed.

Lemma closeShortcutModal_state p :
  shortcutKeysState (closeShortcutModal p) =
  {| modalShown := false; activeModifier := None; modifierHoldTimer := None |}.
Proof. unfold closeShortcutModal. destruct (setTimeout _ p). apply resetState_state. Qed.

Lemma closeShortcutModal_closed p : Inv p -> closed (closeShortcutModal p).
Proof.
  intros H. unfold closed, state. rewrite closeShortcutModal_state.
  auto using closeShortcutModal_clears.
Qed.

Lemma observed_hide p :
  overlayObserved p ->
  addClassHidden p =
  resetState (set_modal (Some {| hidden := true; observerAttached := true |}) p).
Proof.
  intros ([h o] & Hm & Hh & Ho). cbn in Hh, Ho. subst.
  unfold addClassHidden, classChanged. rewrite Hm. reflexivity.
Qed.

Lemma observed_hide_closed p : Inv p -> overlayObserved p -> closed (addClassHidden p).
Proof.
  intros H Ho. rewrite (observed_hide _ Ho). unfold closed, state.
  rewrite resetState_state. repeat split.
  apply resetState_clears. now apply set_modal_inv.
Qed.

(** The second branch of the keydown handler, on a hit and on a miss. *)
Lemma onKeyDown_hit e m p :
  Js.truthy (activeModifier (state p)) = true -> altKey e = true ->
  lookup (shortcutKeysCache p) (Js.toUpperCase (pressed e)) = Some m ->
  onKeyDown e p =
  let q := emit PreventDefault (cancelHoldTimer p) in
  if focusInTextEntry e then q
  else emit (Navigate (targetUrl m)) (closeShortcutModal q).
Proof.
  unfold state. intros Ht Ha Hl. unfold onKeyDown. rewrite Ht, Ha. cbn [negb andb].
  destruct (cancelHoldTimer_frame p) as (Hc & _). rewrite Hc, Hl. reflexivity.
Qed.

Lemma onKeyDown_miss e p :
  Js.truthy (activeModifier (state p)) = true -> altKey e = true ->
  lookup (shortcutKeysCache p) (Js.toUpperCase (pressed e)) = None ->
  onKeyDown e p = cancelHoldTimer p.
Proof.
  unfold state. intros Ht Ha Hl. unfold onKeyDown. rewrite Ht, Ha. cbn [negb andb].
  destruct (cancelHoldTimer_frame p) as (Hc & _). rewrite Hc, Hl. reflexivity.
Qed.

(** The first branch, outside a text-entry element, with the overlay not
    shown and no handle stored. *)
Lemma onKeyDown_arm e p :
  Js.truthy (activeModifier (state p)) = false -> altKey e = true ->
  focusInTextEntry e = false ->
  modalShown (state p) = false -> modifierHoldTimer (state p) = None ->
  onKeyDown e p =
  set_modifierHoldTimer (Some (nextTimerId p))
    (snd (setTimeout ShowTimer (set_activeModifier (Some "alt") p))).
Proof.
  unfold state. intros Ht Ha Hf Hs Hh. unfold onKeyDown. rewrite Ht, Ha, Hf.
  cbn [negb andb]. page p. ops. subst. reflexivity.
Qed.

Lemma lookup_is_Some cache k :
  is_Some (lookup cache k) <-> exists sk, In sk cache /\ matches k sk = true.
Proof.
  unfold lookup. split.
  - intros [sk Hsk]. exists sk. now apply List.find_some in Hsk.
  - intros (sk & Hin & Hm). destruct (List.find _ cache) eqn:E; [eauto|].
    rewrite (List.find_none _ _ E _ Hin) in Hm. discriminate.
Qed.

(** ** The claims *)

Lemma reachable_run evs mac existing : reachable (run evs (init mac existing)).
Proof. now exists mac, existing, evs. Qed.

(** C3, as amended.  On every page the events lead to, the handle
    [modifierHoldTimer] is set only while a modifier is held; and a
    show-timer that is still pending is the one the handle names, with the
    modifier held and the overlay not shown. *)
Theorem holdTimer_invariant p :
  reachable p ->
  (forall id, modifierHoldTimer (state p) = Some id ->
     activeModifier (state p) = Some "alt") /\
  (forall id, showPending p id ->
     modifierHoldTimer (state p) = Some id /\
     activeModifier (state p) = Some "alt" /\
     modalShown (state p) = false).
Proof.
  intros Hr. apply reachable_inv in Hr. split.
  - apply (inv_handle _ Hr).
  - intros id Hp. destruct (inv_pending _ Hr _ Hp) as [Hh Hs].
    eauto using inv_handle.
Qed.


(** X22.  Where the script does what C4 asks: the close button always,
    and a hide of the visible overlay from outside once the observer is
    attached, leave [modalShown = false], [activeModifier = null], the
    handle cleared and no show-timer pending; the overlay is then not shown
    again before a keydown carries the modifier. *)
Theorem close_resets_state p :
  reachable p ->
  let closes (q : Page) :=
    closed q /\ forall evs, noAltDown evs = true -> shows (run evs q) = shows q in
  closes (step CloseButton p) /\
  (overlayObserved p -> closes (step ExternalHide p)).
Proof.
  intros Hr closes. apply reachable_inv in Hr.
  assert (Hc : forall q, closed q -> closes q).
  { intros q Hq. split; [assumption|]. intros evs Hevs.
    destruct Hq as (_ & _ & _ & Hn). now apply run_quiet. }
  split; [|intros Ho]; apply Hc; cbn [step].
  - now apply closeShortcutModal_closed.
  - now apply observed_hide_closed.
Qed.

(** *** Holding the modifier *)

Lemma showShortcutModal_frame keys p :
  let q := showShortcutModal keys p in
  modalShown (state q) = true /\
  activeModifier (state q) = activeModifier (state p) /\
  modifierHoldTimer (state q) = modifierHoldTimer (state p) /\
  listening q = listening p /\ shortcutKeysCache q = shortcutKeysCache p /\
  last (effects q) = Some (ShowOverlay keys).
Proof.
  page p. destruct mo as [[[] []]|]; ops; rewrite last_snoc; auto 10.
Qed.





(** *** A second key *)



(** C8.  On a hit outside any text-entry element the page navigates to the
    URL built from the [page] of the matched shortcut; the query parameter
    [section] is set on it to the [section] of the shortcut when that is a
    non-empty string, and not set when it is missing or empty. *)
Theorem navigation_target p e m :
  listening p = true ->
  Js.truthy (activeModifier (state p)) = true ->
  altKey e = true ->
  focusInTextEntry e = false ->
  lookup (shortcutKeysCache p) (Js.toUpperCase (pressed e)) = Some m ->
  exists u,
    last (effects (step (KeyDown e) p)) = Some (Navigate u) /\
    (forall v, section m = Some v -> v <> "" ->
       u = SearchParamsSet (NewURL (page m)) "section" v) /\
    (section m = None \/ section m = Some "" -> u = NewURL (page m)).
Proof.
  intros Hl Ht Ha Hf Hm. exists (targetUrl m). cbn [step]. rewrite Hl.
  rewrite (onKeyDown_hit e m p), Hf by assumption. cbn zeta.
  split; [|split].
  - unfold emit at 1; cbn [effects]. apply last_snoc.
  - intros v Hv Hne. unfold targetUrl. rewrite Hv. cbn.
    destruct (String.eqb_spec v ""); [contradiction|reflexivity].
  - intros [Hs|Hs]; unfold targetUrl; now rewrite Hs.
Qed.

(** *** Failed requests *)

Lemma cancelHoldTimer_cache p :
  shortcutKeysCache (cancelHoldTimer p) = shortcutKeysCache p.
Proof. apply cancelHoldTimer_frame. Qed.

Lemma resetState_cache p : shortcutKeysCache (resetState p) = shortcutKeysCache p.
Proof. unfold resetState. now rewrite cancelHoldTimer_cache. Qed.

Lemma closeShortcutModal_cache p :
  shortcutKeysCache (closeShortcutModal p) = shortcutKeysCache p.
Proof. unfold closeShortcutModal, setTimeout. now rewrite resetState_cache. Qed.

Lemma classChanged_cache p : shortcutKeysCache (classChanged p) = shortcutKeysCache p.
Proof.
  unfold classChanged.
  destruct (modal p) as [[[] []]|]; cbn [observerAttached hidden]; auto using resetState_cache.
Qed.

Lemma addClassHidden_cache p : shortcutKeysCache (addClassHidden p) = shortcutKeysCache p.
Proof.
  unfold addClassHidden.
  destruct (modal p) as [[[] ?]|]; cbn [hidden]; auto. now rewrite classChanged_cache.
Qed.

Lemma showShortcutModal_cache keys p :
  shortcutKeysCache (showShortcutModal keys p) = shortcutKeysCache p.
Proof. apply showShortcutModal_frame. Qed.

Lemma setupModalObserver_cache p :
  shortcutKeysCache (setupModalObserver p) = shortcutKeysCache p.
Proof.
  unfold setupModalObserver. destruct (modal p) as [[? []]|]; reflexivity.
Qed.

(** Only a request that succeeds puts anything into the catalog. *)
Lemma step_cache ev p :
  isSuccess ev = false ->
  shortcutKeysCache (step ev p) = shortcutKeysCache p \/ shortcutKeysCache (step ev p) = [].
Proof.
  intros Hev. destruct ev as [d| |d| |e|e|id| |]; try discriminate; cbn [step].
  - destruct (fetchInFlight p); [now right|now left].
  - now left.
  - left. destruct (listening p); [|reflexivity]. unfold onKeyDown.
    destruct (altKey e && negb _)%bool.
    + destruct (focusInTextEntry e); [reflexivity|].
      destruct (negb _ && negb _)%bool; reflexivity.
    + destruct (_ && altKey e)%bool; [|reflexivity].
      destruct (lookup _ _); [|apply cancelHoldTimer_cache].
      destruct (focusInTextEntry e); cbn [emit shortcutKeysCache].
      * apply cancelHoldTimer_cache.
      * rewrite closeShortcutModal_cache. apply cancelHoldTimer_cache.
  - left. destruct (listening p); [|reflexivity]. unfold onKeyUp.
    destruct (negb _ && _)%bool; [|reflexivity]. now rewrite cancelHoldTimer_cache.
  - left. unfold timerFires. destruct (timers p !! id) as [[|[]|]|]; try reflexivity.
    + now rewrite showShortcutModal_cache.
    + now rewrite addClassHidden_cache.
    + now rewrite setupModalObserver_cache.
  - left. apply closeShortcutModal_cache.
  - left. apply addClassHidden_cache.
Qed.


(** *** The lookup *)

Lemma normalize_stored mac sk : idempotentCase -> stored (normalize mac sk).
Proof. intros [Hu Hl]. split; simpl; [apply Hu | apply Hl]. Qed.

Lemma map_normalize_stored mac data :
  idempotentCase -> Forall stored (List.map (normalize mac) data).
Proof. intros Hi. induction data; simpl; constructor; auto using normalize_stored. Qed.

(** The catalog only ever holds what the [success] callbacks have stored. *)
Lemma step_stored ev p :
  idempotentCase ->
  Forall stored (shortcutKeysCache p) -> Forall stored (shortcutKeysCache (step ev p)).
Proof.
  intros Hi Hp. destruct (isSuccess ev) eqn:Hev.
  - destruct ev as [d| |d| | | | | |]; try discriminate; cbn [step].
    + destruct (fetchInFlight p); [|assumption]. now apply map_normalize_stored.
    + now apply map_normalize_stored.
  - destruct (step_cache ev p Hev) as [-> | ->]; [assumption | constructor].
Qed.

Lemma run_stored evs : forall p,
  idempotentCase ->
  Forall stored (shortcutKeysCache p) -> Forall stored (shortcutKeysCache (run evs p)).
Proof. induction evs as [|ev evs IH]; cbn [run]; auto using step_stored. Qed.

Lemma reachable_stored p :
  idempotentCase -> reachable p -> Forall stored (shortcutKeysCache p).
Proof. intros Hi (mac & ex & evs & ->). apply run_stored; [assumption | constructor]. Qed.

(** On the keys of the catalog and for a pressed key of ASCII characters,
    the test of the script is equality up to letter case in the sense of
    the specification. *)
Lemma sameKey_equalIgnoringCase sk k :
  agreesOnAscii -> stored sk -> Js.isAscii k = true ->
  sameKey (key sk) k <-> equalIgnoringCase (key sk) k = true.
Proof.
  intros Ha [Hk _] Hascii. unfold sameKey. rewrite Hk.
  destruct (Ha k Hascii) as [Hup _]. rewrite Hup. split.
  - intros ->. apply asciiUpper_equalIgnoringCase, asciiUpper_idem.
  - intros He.
    assert (Hs : Js.isAscii (key sk) = true) by eauto using equalIgnoringCase_ascii.
    destruct (Ha _ Hs) as [Hup' _]. rewrite <- Hk, Hup'.
    now apply asciiUpper_equalIgnoringCase.
Qed.

(** C2.  While a modifier [m] is held, the lookup of the keydown handler
    for the pressed key [k] finds an entry exactly when the catalog holds
    one whose key equals [k] up to letter case and whose command is [m];
    and the handler acts on a keydown with that key as on a match, which
    shows in the default action being suppressed, exactly when the lookup
    finds an entry.  Equality up to letter case is that of the browser's
    [toUpperCase]; for a key of ASCII characters it is stated in the words
    of the specification as well: same length and, position by position,
    the same character or the two cases of one letter. *)
Theorem lookup_finds_held_shortcut p k m :
  idempotentCase ->
  reachable p ->
  activeModifier (state p) = Some m ->
  let found := is_Some (lookup (shortcutKeysCache p) (Js.toUpperCase k)) in
  (found <->
   exists sk, In sk (shortcutKeysCache p) /\ sameKey (key sk) k /\ command sk = m) /\
  (forall e, altKey e = true -> pressed e = k ->
     (found <-> prevented (step (KeyDown e) p) = S (prevented p))) /\
  (agreesOnAscii -> Js.isAscii k = true ->
   (found <->
    exists sk, In sk (shortcutKeysCache p) /\
               equalIgnoringCase (key sk) k = true /\ command sk = m)).
Proof.
  intros Hi Hr Hm found. subst found.
  pose proof (reachable_stored p Hi Hr) as Hst. rewrite List.Forall_forall in Hst.
  apply reachable_inv in Hr.
  assert (m = "alt") as ->.
  { destruct (inv_modifier _ Hr) as [E|E]; rewrite E in Hm; congruence. }
  assert (H1 : is_Some (lookup (shortcutKeysCache p) (Js.toUpperCase k)) <->
               exists sk, In sk (shortcutKeysCache p) /\ sameKey (key sk) k /\
                          command sk = "alt").
  { rewrite lookup_is_Some.
    split; intros (sk & Hin & H); exists sk; (split; [assumption|]).
    - destruct (Hst _ Hin) as [Hk Hc].
      unfold matches in H. apply andb_prop in H as [H1 H2].
      apply String.eqb_eq in H1, H2. split.
      + unfold sameKey. rewrite H1. apply Hi.
      + congruence.
    - destruct H as [Hk Hc]. destruct (Hst _ Hin) as [Hk' Hc'].
      unfold matches, sameKey in *. rewrite Hc', Hc, <- Hk', Hk.
      now rewrite !String.eqb_refl. }
  split; [exact H1|]. split.
  - intros e Ha <-.
    assert (Ht : Js.truthy (activeModifier (state p)) = true) by now rewrite Hm.
    assert (Hl : listening p = true) by now apply (inv_listening _ Hr).
    cbn [step]. rewrite Hl. unfold prevented.
    destruct (lookup (shortcutKeysCache p) (Js.toUpperCase (pressed e))) as [hit|] eqn:E.
    + rewrite (onKeyDown_hit e hit p) by assumption. cbn zeta.
      split; [intros _|eauto].
      destruct (focusInTextEntry e);
        rewrite ?count_emit, ?count_closeShortcutModal, ?count_emit, ?count_cancelHoldTimer
          by apply plumbing_isPreventDefault; cbn; lia.
    + rewrite (onKeyDown_miss e p) by assumption.
      rewrite count_cancelHoldTimer by apply plumbing_isPreventDefault.
      split; [intros [? ?]; discriminate | lia].
  - intros Ha Hascii. rewrite H1.
    split; intros (sk & Hin & Hk & Hc); exists sk; (split; [assumption|]);
      (split; [|assumption]);
      now apply (sameKey_equalIgnoringCase sk k Ha (Hst _ Hin) Hascii).
Qed.


(** * Further properties of short_key.js *)

(** ** Key release *)

Lemma onKeyUp_frame e p :
  modal (onKeyUp e p) = modal p /\
  modalShown (state (onKeyUp e p)) = modalShown (state p) /\
  shortcutKeysCache (onKeyUp e p) = shortcutKeysCache p /\
  listening (onKeyUp e p) = listening p.
Proof.
  unfold onKeyUp. destruct (negb _ && _)%bool; [|auto].
  destruct (cancelHoldTimer_frame (set_activeModifier None p)) as (H1 & H2 & H3 & H4 & _).
  auto.
Qed.

Lemma onKeyUp_released e p :
  Inv p -> altKey e = false ->
  activeModifier (state (onKeyUp e p)) = None /\
  modifierHoldTimer (state (onKeyUp e p)) = None /\
  noShowPending (onKeyUp e p).
Proof.
  intros H Ha. unfold onKeyUp. rewrite Ha. cbn [negb andb].
  case_bool_decide as Hheld.
  - destruct (cancelHoldTimer_frame (set_activeModifier None p)) as (_ & _ & _ & _ & H5 & H6).
    split; [exact H5|]. split; [exact H6|].
    inv_intro H. page p. destruct ht; np_done.
  - unfold state in *. destruct (inv_modifier _ H) as [E|E]; [|contradiction].
    split; [exact E|].
    assert (Hh : modifierHoldTimer (state p) = None).
    { destruct (modifierHoldTimer (state p)) eqn:Eh; [|reflexivity].
      rewrite (inv_handle _ H _ Eh) in E. discriminate. }
    split; [exact Hh|]. intros id Hp. destruct (inv_pending _ H _ Hp). congruence.
Qed.

(** X1.  Releasing the modifier ends the hold on every page the events lead
    to: no modifier is held, the handle is cleared, no show-timer stays
    pending, and the overlay is not shown by anything that follows until a
    keydown carries the modifier again.  A tap shorter than the hold
    duration therefore never brings the overlay up. *)
Theorem release_cancels_hold p up evs :
  reachable p ->
  altKey up = false ->
  noAltDown evs = true ->
  let q := step (KeyUp up) p in
  activeModifier (state q) = None /\
  modifierHoldTimer (state q) = None /\
  noShowPending q /\
  shows q = shows p /\
  shows (run evs q) = shows p.
Proof.
  intros Hr Hup Hevs q. apply reachable_inv in Hr.
  assert (Hq : activeModifier (state q) = None /\ modifierHoldTimer (state q) = None /\
               noShowPending q).
  { subst q. cbn [step]. destruct (listening p) eqn:Hl.
    - now apply onKeyUp_released.
    - assert (E : activeModifier (state p) = None).
      { destruct (inv_modifier _ Hr) as [E|E]; [assumption|].
        rewrite (inv_listening _ Hr E) in Hl. discriminate. }
      assert (Hh : modifierHoldTimer (state p) = None).
      { destruct (modifierHoldTimer (state p)) eqn:Eh; [|reflexivity].
        rewrite (inv_handle _ Hr _ Eh) in E. discriminate. }
      repeat split; try assumption.
      intros id Hp. destruct (inv_pending _ Hr _ Hp). congruence. }
  destruct Hq as (Q1 & Q2 & Q3).
  assert (Hs : shows q = shows p).
  { subst q. cbn [step]. destruct (listening p); [|reflexivity].
    apply count_onKeyUp, plumbing_isShow. }
  repeat split; try assumption.
  destruct (run_quiet evs q Q3 Hevs) as (_ & E & _). congruence.
Qed.

(** X2.  No key release closes the overlay: [modalShown] and the overlay
    element are as before, whatever the event and the page.  An overlay
    brought up by a hold stays up after the modifier is let go. *)
Theorem release_keeps_overlay p up :
  let q := step (KeyUp up) p in
  modalShown (state q) = modalShown (state p) /\ modal q = modal p /\
  shows q = shows p /\ navigations q = navigations p.
Proof.
  cbn [step]. destruct (listening p); [|auto].
  destruct (onKeyUp_frame up p) as (H1 & H2 & _).
  unfold shows, navigations.
  rewrite !count_onKeyUp by auto using plumbing_isShow, plumbing_isNavigate. auto.
Qed.

(** X3.  At most one show-timer is pending at any time. *)
Theorem one_show_timer p i j :
  reachable p -> showPending p i -> showPending p j -> i = j.
Proof.
  intros Hr Hi Hj. apply reachable_inv in Hr.
  destruct (inv_pending _ Hr _ Hi), (inv_pending _ Hr _ Hj). congruence.
Qed.

(** ** The handlers are bound when the first request completes *)

Lemma booted_cancelHoldTimer p : booted (cancelHoldTimer p) = booted p.
Proof. page p. now destruct ht. Qed.

Lemma booted_resetState p : booted (resetState p) = booted p.
Proof. page p. now destruct ht. Qed.

Lemma booted_closeShortcutModal p : booted (closeShortcutModal p) = booted p.
Proof. page p. now destruct ht. Qed.

Lemma booted_classChanged p : booted (classChanged p) = booted p.
Proof.
  unfold classChanged.
  destruct (modal p) as [[[] []]|]; cbn [observerAttached hidden];
    auto using booted_resetState.
Qed.

Lemma booted_addClassHidden p : booted (addClassHidden p) = booted p.
Proof.
  unfold addClassHidden. destruct (modal p) as [[[] ?]|]; cbn [hidden]; auto.
  now rewrite booted_classChanged.
Qed.

Lemma booted_showShortcutModal keys p : booted (showShortcutModal keys p) = booted p.
Proof. page p. now destruct mo as [[[] []]|]. Qed.

Lemma booted_setupModalObserver p : booted (setupModalObserver p) = booted p.
Proof. unfold setupModalObserver. now destruct (modal p) as [[? []]|]. Qed.

Lemma booted_onKeyDown e p : booted (onKeyDown e p) = booted p.
Proof.
  unfold onKeyDown.
  destruct (altKey e && negb _)%bool.
  - destruct (focusInTextEntry e); [reflexivity|].
    destruct (negb _ && negb _)%bool; reflexivity.
  - destruct (_ && altKey e)%bool; [|reflexivity].
    destruct (lookup _ _); [|apply booted_cancelHoldTimer].
    destruct (focusInTextEntry e).
    + apply booted_cancelHoldTimer.
    + change (booted (closeShortcutModal (emit PreventDefault (cancelHoldTimer p))) = booted p).
      rewrite booted_closeShortcutModal. apply booted_cancelHoldTimer.
Qed.

Lemma booted_onKeyUp e p : booted (onKeyUp e p) = booted p.
Proof.
  unfold onKeyUp. destruct (negb _ && _)%bool; [|reflexivity].
  now rewrite booted_cancelHoldTimer.
Qed.

Lemma booted_timerFires id p : booted (timerFires id p) = booted p.
Proof.
  unfold timerFires. destruct (timers p !! id) as [[|[]|]|]; try reflexivity.
  - now rewrite booted_showShortcutModal.
  - now rewrite booted_addClassHidden.
  - now rewrite booted_setupModalObserver.
Qed.

Lemma step_booted ev p :
  listening p = negb (fetchInFlight p) ->
  listening (step ev p) = negb (fetchInFlight (step ev p)).
Proof.
  intros H.
  assert (K : forall q, booted q = booted p ->
                listening q = negb (fetchInFlight q)).
  { intros q Hq. injection Hq as -> ->. exact H. }
  destruct ev as [d| |d| |e|e|id| |]; cbn [step].
  - destruct (fetchInFlight p) eqn:E; [reflexivity|]. now rewrite E.
  - destruct (fetchInFlight p) eqn:E; [reflexivity|]. now rewrite E.
  - exact H.
  - exact H.
  - destruct (listening p); [|now apply K]. apply K, booted_onKeyDown.
  - destruct (listening p); [|now apply K]. apply K, booted_onKeyUp.
  - apply K, booted_timerFires.
  - apply K, booted_closeShortcutModal.
  - apply K, booted_addClassHidden.
Qed.

Lemma run_booted evs : forall p,
  listening p = negb (fetchInFlight p) ->
  listening (run evs p) = negb (fetchInFlight (run evs p)).
Proof. induction evs as [|ev evs IH]; cbn [run]; auto using step_booted. Qed.

(** X4.  The key handlers are bound exactly from the moment the request of
    the page load has completed, whether it succeeded or failed; until then
    a key event changes nothing, and either outcome of that request binds
    them. *)
Theorem handlers_bound_after_first_fetch p :
  reachable p ->
  listening p = negb (fetchInFlight p) /\
  (fetchInFlight p = true ->
   (forall e, step (KeyDown e) p = p /\ step (KeyUp e) p = p) /\
   (forall data, listening (step (FetchSuccess data) p) = true) /\
   listening (step FetchError p) = true).
Proof.
  intros (mac & ex & evs & ->).
  assert (H : listening (run evs (init mac ex)) =
              negb (fetchInFlight (run evs (init mac ex))))
    by now apply run_booted.
  split; [exact H|]. intros Hf. rewrite Hf in H. cbn in H.
  split; [|split].
  - intros e. cbn [step]. now rewrite H.
  - intros data. cbn [step]. now rewrite Hf.
  - cbn [step]. now rewrite Hf.
Qed.

(** ** Typing *)

Lemma typing_step ev p :
  isTyping ev = true ->
  let q := step ev p in
  arms q = arms p /\ shows q = shows p /\ navigations q = navigations p /\
  modal q = modal p /\ modalShown (state q) = modalShown (state p).
Proof.
  intros Hty. destruct ev as [| | | |e|e| | |]; try discriminate; cbn [step isTyping] in *.
  - destruct (listening p); [|auto 10]. unfold onKeyDown. rewrite Hty.
    destruct (cancelHoldTimer_frame p) as (_ & _ & Hmo & Hs & _).
    unfold arms, shows, navigations.
    destruct (altKey e && negb _)%bool; [auto 10|].
    destruct (_ && altKey e)%bool; [|auto 10].
    destruct (lookup _ _);
      rewrite ?count_emit, !count_cancelHoldTimer
        by auto using plumbing_isArm, plumbing_isShow, plumbing_isNavigate;
      cbn; rewrite ?Nat.add_0_r; auto 10.
  - destruct (listening p); [|auto 10].
    destruct (onKeyUp_frame e p) as (H1 & H2 & _).
    unfold arms, shows, navigations.
    rewrite !count_onKeyUp by auto using plumbing_isArm, plumbing_isShow, plumbing_isNavigate.
    auto 10.
Qed.

(** X5.  Key events that arrive while the focus is in a text-entry element
    never arm the show-timer, never show or close the overlay and never
    navigate, whatever the page and however many they are. *)
Theorem typing_never_triggers evs : forall p,
  forallb isTyping evs = true ->
  let q := run evs p in
  arms q = arms p /\ shows q = shows p /\ navigations q = navigations p /\
  modal q = modal p /\ modalShown (state q) = modalShown (state p).
Proof.
  induction evs as [|ev evs IH]; cbn [run forallb]; intros p Hevs; [auto 10|].
  apply andb_prop in Hevs as [Hev Hevs].
  destruct (typing_step ev p Hev) as (S1 & S2 & S3 & S4 & S5).
  destruct (IH (step ev p) Hevs) as (R1 & R2 & R3 & R4 & R5).
  cbn zeta in *. repeat split; congruence.
Qed.

(** ** Hits and misses *)

Section Observable.
Variable f : Effect -> bool.
Hypothesis f_plumbing : forall e, isPlumbing e = true -> f e = false.
Hypothesis f_show : forall rows, f (ShowOverlay rows) = false.
Hypothesis f_arm : forall id, f (SetTimeout id ShowTimer) = false.

(** Effects other than timers, overlay and console come from hits only. *)
Lemma count_step_unless_hit ev p :
  count f (step ev p) <> count f p -> isHit p ev.
Proof.
  intros Hne. destruct ev as [d| |d| |e|e|id| |]; cbn [step] in Hne.
  - destruct (fetchInFlight p); now destruct Hne.
  - destruct (fetchInFlight p); [|now destruct Hne].
    destruct Hne. unfold fetchFailed, fetch_completed, set_cache, emit, count; cbn [effects].
    rewrite List.filter_app, List.length_app. cbn.
    rewrite (f_plumbing (ConsoleError _)) by reflexivity. cbn. lia.
  - now destruct Hne.
  - destruct Hne. unfold refreshFailed. now rewrite count_emit_plumbing.
  - destruct (listening p) eqn:Hl; [|now destruct Hne].
    unfold onKeyDown in Hne.
    destruct (altKey e) eqn:Ha; cbn [andb] in Hne;
      [|rewrite andb_false_r in Hne; now destruct Hne].
    rewrite andb_true_r in Hne.
    destruct (Js.truthy (activeModifier (shortcutKeysState p))) eqn:Ht; cbn [negb] in Hne.
    + destruct (cancelHoldTimer_frame p) as (Hc & _). rewrite Hc in Hne.
      destruct (lookup _ _) as [m|] eqn:Hm.
      * exists e, m. auto 10.
      * destruct Hne. now apply count_cancelHoldTimer.
    + destruct Hne. destruct (focusInTextEntry e); [reflexivity|].
      destruct (negb _ && negb _)%bool; [|reflexivity].
      unfold setTimeout, set_modifierHoldTimer. cbn [snd].
      rewrite count_set_state, count_emit, f_arm, Nat.add_0_r. reflexivity.
  - destruct (listening p); [|now destruct Hne].
    destruct Hne. now apply count_onKeyUp.
  - destruct Hne. unfold timerFires.
    destruct (timers p !! id) as [[|[]|]|]; try reflexivity.
    + rewrite count_showShortcutModal, f_show by assumption. apply Nat.add_0_r.
    + now rewrite count_addClassHidden.
    + now rewrite count_setupModalObserver.
  - destruct Hne. now apply count_closeShortcutModal.
  - destruct Hne. now apply count_addClassHidden.
Qed.

End Observable.

(** X6.  The page navigates, and the default action of an event is
    suppressed, only by a keydown that carries the modifier while one is
    held and whose key is in the catalog; a navigation moreover needs the
    focus outside the text-entry elements.  No other event does either. *)
Theorem only_hits_navigate ev p :
  (prevented (step ev p) <> prevented p -> isHit p ev) /\
  (navigations (step ev p) <> navigations p ->
   isHit p ev /\ exists e, ev = KeyDown e /\ focusInTextEntry e = false).
Proof.
  split.
  - apply count_step_unless_hit; auto using plumbing_isPreventDefault.
  - intros Hne.
    assert (Hhit : isHit p ev)
      by (revert Hne; apply count_step_unless_hit; auto using plumbing_isNavigate).
    split; [assumption|].
    destruct Hhit as (e & m & -> & Hl & Ha & Ht & Hm). exists e. split; [reflexivity|].
    destruct (focusInTextEntry e) eqn:Hf; [|reflexivity]. destruct Hne.
    destruct (typing_step (KeyDown e) p) as (_ & _ & E & _); [exact Hf|exact E].
Qed.

(** X7.  A keydown that carries the held modifier and a key that is not in
    the catalog passes through: its default action is not suppressed and
    nothing is navigated to or shown.  It ends the wait for the overlay all
    the same: the handle is cleared and no show-timer stays pending, while
    the modifier remains held. *)
Theorem miss_passes_through p e :
  reachable p ->
  Js.truthy (activeModifier (state p)) = true ->
  altKey e = true ->
  lookup (shortcutKeysCache p) (Js.toUpperCase (pressed e)) = None ->
  let q := step (KeyDown e) p in
  prevented q = prevented p /\ navigations q = navigations p /\ shows q = shows p /\
  arms q = arms p /\
  activeModifier (state q) = activeModifier (state p) /\
  modalShown (state q) = modalShown (state p) /\
  modifierHoldTimer (state q) = None /\
  noShowPending q.
Proof.
  intros Hr Ht Ha Hm. apply reachable_inv in Hr.
  assert (Hl : listening p = true).
  { apply (inv_listening _ Hr). now apply truthy_inv. }
  cbn [step]. rewrite Hl, (onKeyDown_miss e p) by assumption. cbn zeta.
  destruct (cancelHoldTimer_frame p) as (_ & _ & _ & F4 & F5 & F6).
  unfold prevented, navigations, shows, arms.
  rewrite !count_cancelHoldTimer
    by auto using plumbing_isPreventDefault, plumbing_isNavigate, plumbing_isShow,
                  plumbing_isArm.
  repeat split; try assumption. now apply cancelHoldTimer_clears.
Qed.

(** ** The catalog *)

Lemma lookup_split cache k m :
  lookup cache k = Some m ->
  exists before after,
    cache = before ++ m :: after /\
    Forall (fun sk => matches k sk = false) before /\
    matches k m = true.
Proof.
  unfold lookup. induction cache as [|sk cache IH]; cbn [List.find]; [discriminate|].
  destruct (matches k sk) eqn:E.
  - intros [= ->]. exists [], cache. auto.
  - intros H. destruct (IH H) as (before & after & -> & Hb & Hm).
    exists (sk :: before), after. auto.
Qed.

(** X8.  Of several entries with the pressed key the lookup returns the
    first in catalog order: every entry before the one returned fails the
    test, and the one returned passes it. *)
Theorem lookup_first_match cache k m :
  lookup cache k = Some m ->
  exists before after,
    cache = before ++ m :: after /\
    Forall (fun sk => matches k sk = false) before /\
    matches k m = true.
Proof. apply lookup_split. Qed.

Lemma matches_normalize mac k r :
  idempotentCase ->
  matches (Js.toUpperCase k) (normalize mac r) = rawMatches k r.
Proof. intros [_ Hl]. unfold matches, rawMatches. cbn. now rewrite Hl. Qed.

Lemma lookup_normalize mac k data :
  idempotentCase ->
  lookup (List.map (normalize mac) data) (Js.toUpperCase k) =
  option_map (normalize mac) (List.find (rawMatches k) data).
Proof.
  intros Hi. unfold lookup.
  induction data as [|r data IH]; cbn [List.map List.find]; [reflexivity|].
  rewrite matches_normalize by assumption. now destruct (rawMatches k r).
Qed.

(** X9.  A catalog that arrives replaces the old one whole, and the lookup
    in it, in terms of the records the endpoint sent: the first record
    whose key equals the pressed key up to letter case and whose command
    is [alt] up to letter case, normalized; records with another command
    are never found.  Letter case is that of the browser's case mappings,
    of which the statement needs that mapping twice is mapping once. *)
Theorem lookup_after_refresh p data k :
  idempotentCase ->
  let q := step (RefreshSuccess data) p in
  lookup (shortcutKeysCache q) (Js.toUpperCase k) =
    option_map (normalize (isMac p)) (List.find (rawMatches k) data) /\
  (forall m, lookup (shortcutKeysCache q) (Js.toUpperCase k) = Some m ->
     command m = "alt" /\ key m = Js.toUpperCase k).
Proof.
  intros Hi. cbn [step]. unfold refreshSucceeded; cbn [shortcutKeysCache set_cache].
  split; [now apply lookup_normalize|].
  intros m Hm. apply lookup_split in Hm as (before & after & Hc & _ & Hmatch).
  assert (Hin : In m (List.map (normalize (isMac p)) data)).
  { rewrite Hc. apply in_or_app. right. now left. }
  apply List.in_map_iff in Hin as (r & <- & _).
  unfold matches in Hmatch. apply andb_prop in Hmatch as [H1 H2].
  apply String.eqb_eq in H1, H2. cbn in *. destruct Hi as [_ Hl]. rewrite Hl in H2. auto.
Qed.

(** X10.  The platform changes how a shortcut is displayed, not what a key
    does: on a Mac and elsewhere the same record is found and the same URL
    is the target. *)
Theorem matching_ignores_platform data k :
  let onMac := lookup (List.map (normalize true) data) k in
  let elsewhere := lookup (List.map (normalize false) data) k in
  option_map targetUrl onMac = option_map targetUrl elsewhere /\
  option_map key onMac = option_map key elsewhere /\
  option_map title onMac = option_map title elsewhere /\
  (forall r, Js.toLowerCase (raw_command r) = "alt" ->
     displayCommand (normalize true r) = "OPTION" /\
     displayCommand (normalize false r) = Js.toUpperCase (raw_command r)).
Proof.
  cbv zeta. unfold lookup. split; [|split; [|split]].
  1-3: induction data as [|r data IH]; cbn [List.map List.find]; [reflexivity|];
       change (matches k (normalize true r)) with (matches k (normalize false r));
       now destruct (matches k (normalize false r)).
  intros r Hr. cbn. rewrite Hr. cbn. auto.
Qed.

(** ** The overlay element and its observer *)

Lemma cancelHoldTimer_modal p : modal (cancelHoldTimer p) = modal p.
Proof. apply cancelHoldTimer_frame. Qed.

Lemma resetState_modal p : modal (resetState p) = modal p.
Proof. unfold resetState. now rewrite cancelHoldTimer_modal. Qed.

Lemma closeShortcutModal_modal p : modal (closeShortcutModal p) = modal p.
Proof. unfold closeShortcutModal, setTimeout. now rewrite resetState_modal. Qed.

Lemma classChanged_modal p : modal (classChanged p) = modal p.
Proof.
  unfold classChanged.
  destruct (modal p) as [[[] []]|] eqn:E; cbn [observerAttached hidden];
    rewrite ?resetState_modal; auto.
Qed.

Lemma addClassHidden_modal p :
  modal (addClassHidden p) =
  match modal p with
  | Some m => Some {| hidden := true; observerAttached := observerAttached m |}
  | None => None
  end.
Proof.
  unfold addClassHidden. destruct (modal p) as [[[] o]|] eqn:E; cbn [hidden]; auto.
  now rewrite classChanged_modal.
Qed.

Lemma showShortcutModal_modal keys p :
  exists o,
    modal (showShortcutModal keys p) = Some {| hidden := false; observerAttached := o |} /\
    (forall m, modal p = Some m -> o = true) /\
    (modal p = None -> timers (showShortcutModal keys p) !! nextTimerId p = Some ObserverTimer).
Proof.
  page p. destruct mo as [[[] []]|]; ops; eexists; (split; [reflexivity|]);
    split; intros; try discriminate; try reflexivity.
  apply lookup_insert_eq.
Qed.

Lemma step_observerOn ev p : observerOn p -> observerOn (step ev p).
Proof.
  intros ([h o] & Hm & Ho). cbn in Ho. subst o. unfold observerOn.
  destruct ev as [d| |d| |e|e|id| |]; cbn [step].
  - destruct (fetchInFlight p); eauto.
  - destruct (fetchInFlight p); eauto.
  - eauto.
  - eauto.
  - destruct (listening p); [|eauto]. unfold onKeyDown.
    destruct (altKey e && negb _)%bool.
    + destruct (focusInTextEntry e); [eauto|].
      destruct (negb _ && negb _)%bool; eauto.
    + destruct (_ && altKey e)%bool; [|eauto].
      destruct (lookup _ _); [|rewrite cancelHoldTimer_modal; eauto].
      destruct (focusInTextEntry e); cbn [emit modal].
      * rewrite cancelHoldTimer_modal; eauto.
      * rewrite closeShortcutModal_modal. cbn [emit modal].
        rewrite cancelHoldTimer_modal; eauto.
  - destruct (listening p); [|eauto].
    destruct (onKeyUp_frame e p) as (-> & _). eauto.
  - unfold timerFires. destruct (timers p !! id) as [[|[]|]|]; eauto.
    + match goal with |- context [showShortcutModal ?k ?r] =>
        destruct (showShortcutModal_modal k r) as (o' & -> & Ho' & _);
        rewrite (Ho' _ Hm) end.
      eauto.
    + rewrite addClassHidden_modal. cbn [modal set_timers]. rewrite Hm. eauto.
    + unfold setupModalObserver. cbn [modal set_timers]. rewrite Hm. cbn. eauto.
  - rewrite closeShortcutModal_modal. eauto.
  - rewrite addClassHidden_modal, Hm. eauto.
Qed.

Lemma run_observerOn evs : forall p, observerOn p -> observerOn (run evs p).
Proof. induction evs as [|ev evs IH]; cbn [run]; auto using step_observerOn. Qed.

(** X11.  Once the observer is attached to the overlay element it stays
    attached, whatever happens; from then on every hide of the visible
    overlay from outside leaves the closed state. *)
Theorem observer_stays_attached p evs :
  reachable p ->
  observerOn p ->
  let q := run evs p in
  observerOn q /\ (overlayVisible q -> closed (step ExternalHide q)).
Proof.
  intros Hr Ho q.
  assert (Hq : observerOn q) by now apply run_observerOn.
  split; [assumption|]. intros (m & Hm & Hh).
  apply observed_hide_closed.
  - apply run_inv. now apply reachable_inv.
  - destruct Hq as (m' & Hm' & Ho'). exists m. rewrite Hm in Hm'.
    injection Hm' as <-. auto.
Qed.

(** X12.  When the show-timer fires the overlay element is in the document
    and visible and [modalShown] is set; the observer is attached to it
    already, or, when the element had to be created, the timer that will
    attach it is pending. *)
Theorem show_makes_overlay_visible p id :
  showPending p id ->
  let q := step (TimerFires id) p in
  modalShown (state q) = true /\
  overlayVisible q /\
  (observerOn q \/ exists j, timers q !! j = Some ObserverTimer) /\
  last (effects q) = Some (ShowOverlay (shortcutKeysCache p)).
Proof.
  intros Hp q. subst q. cbn [step]. unfold timerFires.
  unfold showPending in Hp. rewrite Hp.
  match goal with |- context [showShortcutModal ?k ?r] =>
    destruct (showShortcutModal_modal k r) as (o & Hm & Ho & Hn);
    destruct (showShortcutModal_frame k r) as (F1 & _ & _ & _ & _ & F6)
  end.
  cbn zeta. split; [exact F1|]. split; [eexists; split; [exact Hm|reflexivity]|].
  split; [|exact F6].
  cbn [modal set_timers] in Ho, Hn.
  destruct (modal p) as [m|] eqn:E.
  - left. rewrite (Ho m eq_refl) in Hm. eexists. split; [exact Hm|reflexivity].
  - right. exists (nextTimerId p). exact (Hn eq_refl).
Qed.

(** ** Timer ids *)

Lemma init_fresh mac existing : fresh (init mac existing).
Proof. split; cbn; intros; discriminate. Qed.

Lemma cancelHoldTimer_fresh p : fresh p -> fresh (cancelHoldTimer p).
Proof. intros [Ht Hh]. page p. destruct ht; ops; fresh_done. Qed.

Lemma resetState_fresh p : fresh p -> fresh (resetState p).
Proof. intros [Ht Hh]. page p. destruct ht; ops; fresh_done. Qed.

Lemma setTimeout_fresh t p : fresh p -> fresh (snd (setTimeout t p)).
Proof. intros [Ht Hh]. page p. destruct ht; ops; fresh_done. Qed.

Lemma closeShortcutModal_fresh p : fresh p -> fresh (closeShortcutModal p).
Proof.
  intros H. unfold closeShortcutModal.
  destruct (setTimeout _ p) as [i q] eqn:E.
  apply resetState_fresh. change q with (snd (i, q)). rewrite <- E.
  now apply setTimeout_fresh.
Qed.

Lemma set_modal_fresh m p : fresh p -> fresh (set_modal m p).
Proof. intros [Ht Hh]. page p. destruct ht; ops; fresh_done. Qed.

Lemma emit_fresh e p : fresh p -> fresh (emit e p).
Proof. intros [Ht Hh]. page p. destruct ht; ops; fresh_done. Qed.

Lemma classChanged_fresh p : fresh p -> fresh (classChanged p).
Proof.
  intros H. unfold classChanged.
  destruct (modal p) as [[[] []]|]; cbn [observerAttached hidden]; auto using resetState_fresh.
Qed.

Lemma addClassHidden_fresh p : fresh p -> fresh (addClassHidden p).
Proof.
  intros H. unfold addClassHidden.
  destruct (modal p) as [[[] ?]|]; cbn [hidden]; auto using classChanged_fresh, set_modal_fresh.
Qed.

Lemma setupModalObserver_fresh p : fresh p -> fresh (setupModalObserver p).
Proof.
  intros H. unfold setupModalObserver.
  destruct (modal p) as [[? []]|]; cbn [observerAttached]; auto using set_modal_fresh.
Qed.

Lemma showShortcutModal_fresh keys p : fresh p -> fresh (showShortcutModal keys p).
Proof.
  intros [Ht Hh]. page p. destruct ht, mo as [[[] []]|]; ops; fresh_done.
Qed.

Lemma fired_fresh id p :
  fresh p -> fresh (set_timers (delete id (timers p)) (nextTimerId p) p).
Proof. intros [Ht Hh]. page p. destruct ht; ops; fresh_done. Qed.

Lemma timerFires_fresh id p : fresh p -> fresh (timerFires id p).
Proof.
  intros H. unfold timerFires.
  destruct (timers p !! id) as [[|[]|]|]; auto using showShortcutModal_fresh,
    addClassHidden_fresh, setupModalObserver_fresh, fired_fresh.
Qed.

Lemma onKeyDown_fresh e p : fresh p -> fresh (onKeyDown e p).
Proof.
  intros H. unfold onKeyDown.
  destruct (altKey e && negb _)%bool.
  - destruct (focusInTextEntry e).
    + destruct H as [Ht Hh]. page p. ops. fresh_done.
    + destruct (negb _ && negb _)%bool.
      * destruct H as [Ht Hh]. page p. destruct ht; ops; fresh_done.
      * destruct H as [Ht Hh]. page p. ops. fresh_done.
  - destruct (_ && altKey e)%bool; [|assumption].
    destruct (lookup _ _); [|now apply cancelHoldTimer_fresh].
    destruct (focusInTextEntry e);
      auto using emit_fresh, closeShortcutModal_fresh, cancelHoldTimer_fresh.
Qed.

Lemma onKeyUp_fresh e p : fresh p -> fresh (onKeyUp e p).
Proof.
  intros H. unfold onKeyUp. destruct (negb _ && _)%bool; [|assumption].
  destruct H as [Ht Hh]. page p. destruct ht; ops; fresh_done.
Qed.

Lemma step_fresh ev p : fresh p -> fresh (step ev p).
Proof.
  intros H. destruct ev as [d| |d| |e|e|id| |]; cbn [step].
  - destruct (fetchInFlight p); [|assumption]. destruct H as [Ht Hh]. page p. ops. fresh_done.
  - destruct (fetchInFlight p); [|assumption]. destruct H as [Ht Hh]. page p. ops. fresh_done.
  - destruct H as [Ht Hh]. page p. ops. fresh_done.
  - now apply emit_fresh.
  - destruct (listening p); auto using onKeyDown_fresh.
  - destruct (listening p); auto using onKeyUp_fresh.
  - now apply timerFires_fresh.
  - now apply closeShortcutModal_fresh.
  - now apply addClassHidden_fresh.
Qed.

Lemma run_fresh evs : forall p, fresh p -> fresh (run evs p).
Proof. induction evs as [|ev evs IH]; cbn [run]; auto using step_fresh. Qed.

Lemma reachable_fresh p : reachable p -> fresh p.
Proof. intros (mac & ex & evs & ->). apply run_fresh, init_fresh. Qed.

Lemma closeShortcutModal_timer p :
  fresh p ->
  timers (closeShortcutModal p) !! nextTimerId p =
  Some (HideTimer (bool_decide (is_Some (modal p)))).
Proof.
  intros [Ht Hh]. page p. destruct ht as [h|]; ops.
  - pose proof (Hh h eq_refl). rewrite lookup_delete_ne by lia. apply lookup_insert_eq.
  - apply lookup_insert_eq.
Qed.

Lemma addClassHidden_keeps_reset p :
  shortcutKeysState p =
    {| modalShown := false; activeModifier := None; modifierHoldTimer := None |} ->
  shortcutKeysState (addClassHidden p) =
    {| modalShown := false; activeModifier := None; modifierHoldTimer := None |}.
Proof.
  intros H. unfold addClassHidden, classChanged.
  destruct (modal p) as [[[] []]|]; cbn [hidden observerAttached modal set_modal];
    rewrite ?resetState_state; first [reflexivity | exact H].
Qed.

(** X13.  The close button resets the state at once and leaves the overlay
    element as it is for the length of the exit transition; when the timer
    it has set fires, the element carries [hidden], and the state is still
    the reset one.  With no overlay element in the document the timer does
    nothing. *)
Theorem close_hides_overlay p :
  reachable p ->
  let q := step CloseButton p in
  let r := step (TimerFires (nextTimerId p)) q in
  modal q = modal p /\
  timers q !! nextTimerId p = Some (HideTimer (bool_decide (is_Some (modal p)))) /\
  shortcutKeysState r =
    {| modalShown := false; activeModifier := None; modifierHoldTimer := None |} /\
  modal r =
    match modal p with
    | Some m => Some {| hidden := true; observerAttached := observerAttached m |}
    | None => None
    end.
Proof.
  intros Hr q r. apply reachable_fresh in Hr.
  assert (Hq : timers q !! nextTimerId p =
               Some (HideTimer (bool_decide (is_Some (modal p)))))
    by now apply closeShortcutModal_timer.
  assert (Hm : modal q = modal p) by apply closeShortcutModal_modal.
  assert (Hs : shortcutKeysState q =
               {| modalShown := false; activeModifier := None; modifierHoldTimer := None |})
    by apply closeShortcutModal_state.
  split; [exact Hm|]. split; [exact Hq|].
  subst r. cbn [step]. unfold timerFires. rewrite Hq.
  destruct (modal p) as [m|] eqn:E.
  - rewrite bool_decide_eq_true_2 by eauto. split.
    + now apply addClassHidden_keeps_reset.
    + rewrite addClassHidden_modal. cbn [modal set_timers]. now rewrite Hm.
  - rewrite bool_decide_eq_false_2 by (intros [? ?]; discriminate). split.
    + exact Hs.
    + cbn [modal set_timers]. exact Hm.
Qed.

(** ** From the endpoint to the navigation *)

(** X21.  A shortcut the endpoint has delivered works: once the catalog
    has arrived, holding the modifier outside a text field and pressing,
    in either letter case, the key of a record whose command is [alt] in any
    letter case navigates to the target of the first such record: its
    [page], with its [section] as query parameter when it has a non-empty
    one.  Letter case is that of the browser's case mappings, of which the
    statement needs that mapping twice is mapping once. *)
Theorem fetched_shortcut_navigates mac existing data k r holdKey :
  idempotentCase ->
  List.find (rawMatches k) data = Some r ->
  let hold := {| altKey := true; pressed := holdKey; focusInTextEntry := false |} in
  let press := {| altKey := true; pressed := k; focusInTextEntry := false |} in
  let q := run [FetchSuccess data; KeyDown hold; KeyDown press] (init mac existing) in
  last (effects q) =
    Some (Navigate (if Js.truthy (raw_section r)
                    then SearchParamsSet (NewURL (raw_page r)) "section"
                           (Js.or_empty (raw_section r))
                    else NewURL (raw_page r))) /\
  navigations q = 1 /\ shows q = 0 /\ closed q.
Proof.
  intros Hi Hr hold press q.
  set (p1 := step (FetchSuccess data) (init mac existing)).
  set (p2 := step (KeyDown hold) p1).
  assert (Hp2 : p2 = set_modifierHoldTimer (Some (nextTimerId p1))
                       (snd (setTimeout ShowTimer (set_activeModifier (Some "alt") p1)))).
  { subst p2. cbn [step]. change (listening p1) with true. cbv iota.
    now apply onKeyDown_arm. }
  assert (Hinv : Inv p2).
  { apply (run_inv [FetchSuccess data; KeyDown hold]), init_inv. }
  assert (Hlook : lookup (shortcutKeysCache p2) (Js.toUpperCase (pressed press)) =
                  Some (normalize mac r)).
  { rewrite Hp2. change (lookup (List.map (normalize mac) data) (Js.toUpperCase k) =
                         Some (normalize mac r)).
    now rewrite lookup_normalize, Hr by assumption. }
  assert (Hq : q = emit (Navigate (targetUrl (normalize mac r)))
                     (closeShortcutModal (emit PreventDefault (cancelHoldTimer p2)))).
  { subst q. cbn [run]. fold p1. fold p2. cbn [step].
    assert (Hl : listening p2 = true) by now rewrite Hp2.
    rewrite Hl, (onKeyDown_hit press (normalize mac r) p2); [reflexivity| |reflexivity|exact Hlook].
    now rewrite Hp2. }
  split; [|split; [|split]].
  - rewrite Hq. unfold emit at 1; cbn [effects]. now rewrite last_snoc.
  - rewrite Hq. unfold navigations.
    rewrite count_emit, count_closeShortcutModal, count_emit, count_cancelHoldTimer
      by apply plumbing_isNavigate.
    rewrite Hp2. reflexivity.
  - rewrite Hq. unfold shows.
    rewrite count_emit, count_closeShortcutModal, count_emit, count_cancelHoldTimer
      by apply plumbing_isShow.
    rewrite Hp2. reflexivity.
  - rewrite Hq.
    destruct (closeShortcutModal_closed (emit PreventDefault (cancelHoldTimer p2)))
      as (C1 & C2 & C3 & C4); [auto using emit_inv, cancelHoldTimer_inv|].
    split; [exact C1|]. split; [exact C2|]. split; [exact C3|]. now apply emit_quiet.
Qed.

(** *** Holding the modifier, whatever else happens *)









(** *** A second key, and where it leads *)


(** *** Failed requests, and what follows them *)








End Keys.

(** ** horilla_charts.js *)

Import Charts ChartsMore.

(** The loop appends the generated colours for the missing positions, as
    soon as the fuel covers them. *)
Lemma pushColors_unfold fuel : forall dataLength colors,
  dataLength <= length colors + fuel ->
  pushColors fuel dataLength colors =
  colors ++ List.map hsl (List.seq (length colors) (dataLength - length colors)).
Proof.
  induction fuel as [|fuel IH]; intros n colors Hn; cbn [pushColors].
  - replace (n - length colors) with 0 by lia. cbn. now rewrite app_nil_r.
  - destruct (Nat.ltb_spec (length colors) n) as [Hlt|Hge].
    + rewrite IH by (rewrite List.length_app; cbn; lia).
      rewrite List.length_app. cbn [length].
      replace (n - length colors) with (S (n - (length colors + 1))) by lia.
      cbn [List.seq List.map]. rewrite <- app_assoc. cbn.
      now replace (length colors + 1) with (S (length colors)) by lia.
    + replace (n - length colors) with 0 by lia. cbn. now rewrite app_nil_r.
Qed.

Lemma getDynamicColors_unfold n :
  getDynamicColors n = firstn n (defaultColors ++ List.map hsl (List.seq 27 (n - 27))).
Proof.
  unfold getDynamicColors. rewrite pushColors_unfold by lia. reflexivity.
Qed.

Lemma append_assoc (a b c : string) : ((a ++ b) ++ c = a ++ (b ++ c))%string.
Proof.
  induction a as [|x a IH]; [reflexivity|].
  change (String x ((a ++ b) ++ c) = String x (a ++ (b ++ c)))%string. now f_equal.
Qed.

Lemma to_uint_nonnil n : Nat.to_uint n <> Decimal.Nil.
Proof.
  intros H. assert (E : n = 0).
  { rewrite <- (DecimalNat.Unsigned.of_to n), H. reflexivity. }
  subst n. discriminate H.
Qed.

(** The generated colour, spelled out: the digits of the whole part of the
    hue, [.5] when the hue has a half, between [hsl(] and the saturation
    and lightness. *)
Lemma hsl_digits i :
  exists (whole : nat) (half : bool) (digits : string),
    2 * whole + (if half then 1 else 0) = (275 * i) mod 720 /\
    NilZero.uint_of_string digits = Some (Nat.to_uint whole) /\
    hsl i = ("hsl(" ++ digits ++ (if half then ".5" else "") ++ ", 70%, 60%)")%string.
Proof.
  set (twice := (i * 275) mod 720).
  exists (twice / 2), (negb (Nat.even twice)), (decimal (twice / 2)).
  split; [|split].
  - replace (275 * i) with (i * 275) by lia. fold twice.
    pose proof (Nat.div2_odd twice) as Hd. rewrite Nat.div2_div in Hd.
    unfold Nat.odd in Hd. destruct (Nat.even twice); cbn [negb Nat.b2n] in Hd |- *; lia.
  - unfold decimal. apply NilZero.usu, to_uint_nonnil.
  - unfold hsl, hueString. fold twice. f_equal.
    destruct (Nat.even twice); cbn [negb]; [reflexivity|]. apply append_assoc.
Qed.

(** C9.  [getDynamicColors n] has [n] elements; the first [min n 27] are
    the default palette in order; the element at each later position [i]
    is the string [hsl(H, 70%, 60%)], where [H] is the hue
    [i * 137.5 mod 360] written in decimal: the digits of its whole part,
    followed by [.5] when twice the hue is odd.  The loop has stopped
    because its condition failed. *)
Theorem getDynamicColors_spec n :
  length (getDynamicColors n) = n /\
  firstn (Nat.min n 27) (getDynamicColors n) = firstn (Nat.min n 27) defaultColors /\
  (forall i, 27 <= i < n ->
     exists (whole : nat) (half : bool) (digits : string),
       2 * whole + (if half then 1 else 0) = (275 * i) mod 720 /\
       NilZero.uint_of_string digits = Some (Nat.to_uint whole) /\
       nth_error (getDynamicColors n) i =
         Some ("hsl(" ++ digits ++ (if half then ".5" else "") ++ ", 70%, 60%)")%string) /\
  Nat.ltb (length (pushColors n n defaultColors)) n = false.
Proof.
  assert (Hlen : length defaultColors = 27) by reflexivity.
  rewrite getDynamicColors_unfold. split; [|split; [|split]].
  - rewrite List.length_firstn, List.length_app, List.length_map, List.length_seq. lia.
  - rewrite List.firstn_firstn.
    replace (Nat.min (Nat.min n 27) n) with (Nat.min n 27) by lia.
    rewrite List.firstn_app.
    replace (Nat.min n 27 - length defaultColors) with 0 by lia.
    cbn [firstn]. now rewrite app_nil_r.
  - intros i [Hlo Hhi].
    destruct (hsl_digits i) as (whole & half & digits & H1 & H2 & H3).
    exists whole, half, digits. split; [exact H1|]. split; [exact H2|].
    rewrite <- H3.
    rewrite List.nth_error_firstn.
    destruct (Nat.ltb_spec i n) as [_|]; [|lia].
    rewrite List.nth_error_app2 by lia. rewrite Hlen.
    rewrite List.nth_error_map, List.nth_error_seq.
    destruct (Nat.ltb_spec (i - 27) (n - 27)) as [_|]; [|lia].
    cbn. do 2 f_equal. lia.
  - rewrite pushColors_unfold by lia.
    rewrite List.length_app, List.length_map, List.length_seq, Hlen.
    apply Nat.ltb_ge. lia.
Qed.

Lemma getDynamicColors_spec_witness :
  length (getDynamicColors 30) = 30 /\
  firstn (Nat.min 30 27) (getDynamicColors 30) = firstn (Nat.min 30 27) defaultColors /\
  (forall i, 27 <= i < 30 ->
     exists (whole : nat) (half : bool) (digits : string),
       2 * whole + (if half then 1 else 0) = (275 * i) mod 720 /\
       NilZero.uint_of_string digits = Some (Nat.to_uint whole) /\
       nth_error (getDynamicColors 30) i =
         Some ("hsl(" ++ digits ++ (if half then ".5" else "") ++ ", 70%, 60%)")%string) /\
  Nat.ltb (length (pushColors 30 30 defaultColors)) 30 = false.
Proof. apply (getDynamicColors_spec 30). Defined.

Example getDynamicColors_29 :
  getDynamicColors 29 =
  defaultColors ++ ["hsl(112.5, 70%, 60%)"; "hsl(250, 70%, 60%)"].
Proof. reflexivity. Qed.

Section Default.
Context {cm : Js.CaseMapping}.
Variables getBarChartOption getColumnChartOption getLineChartOption
          getFunnelChartOption getScatterChartOption : Builder.
Variables getStackedVerticalChartOption getStackedHorizontalChartOption : StackedBuilder.

(** C10.  When the lower-cased type of the configuration is none of the
    nine values of the [switch], [getChartOption] returns what
    [getPieChartOption] returns on the labels, the data, the resolved
    colours, the label field and the urls of the configuration; the resolved
    colours are those of the configuration when it has some and the default
    palette otherwise. *)
Theorem getChartOption_default isDarkMode config :
  ~ In (Js.toLowerCase (type config)) recognizedTypes ->
  fst (getChartOption getBarChartOption getColumnChartOption getLineChartOption
         getFunnelChartOption getScatterChartOption
         getStackedVerticalChartOption getStackedHorizontalChartOption
         isDarkMode config) =
  getPieChartOption isDarkMode (labels config) (data config) (chartColors config)
    (labelField config) (urls config) /\
  (forall c cs, colors config = Some (c :: cs) -> chartColors config = c :: cs) /\
  (colors config = None \/ colors config = Some [] ->
   chartColors config = List.map JStr defaultColors).
Proof.
  intros Hnot. split; [|split].
  - unfold getChartOption; cbn [fst].
    repeat match goal with
    | |- context [String.eqb ?a ?b] =>
        destruct (String.eqb_spec a b) as [E|_];
        [exfalso; apply Hnot; rewrite E; cbn; tauto|]
    end.
    reflexivity.
  - intros c cs Hc. unfold chartColors. now rewrite Hc.
  - intros [Hc|Hc]; unfold chartColors; now rewrite Hc.
Qed.

End Default.

(** * Further properties of horilla_charts.js *)

(** ** Colours *)

(** X14.  The colour lists are stable: the list for fewer items is the
    beginning of the list for more, so an item keeps its colour when the
    data grow. *)
Theorem getDynamicColors_prefix m n :
  m <= n -> getDynamicColors m = firstn m (getDynamicColors n).
Proof.
  intros Hmn. rewrite !getDynamicColors_unfold, List.firstn_firstn.
  replace (Nat.min m n) with m by lia.
  assert (Hlen : length defaultColors = 27) by reflexivity.
  rewrite !List.firstn_app, Hlen. f_equal.
  destruct (Nat.le_gt_cases m 27) as [Hle|Hgt].
  - now replace (m - 27) with 0 by lia.
  - replace (n - 27) with ((m - 27) + (n - m)) by lia.
    rewrite List.seq_app, List.map_app, List.firstn_app.
    rewrite List.length_map, List.length_seq, Nat.sub_diag. cbn [firstn].
    rewrite app_nil_r.
    rewrite !List.firstn_all2 by (rewrite List.length_map, List.length_seq; lia).
    reflexivity.
Qed.

Lemma getDynamicColors_prefix_witness :
  getDynamicColors 28 = firstn 28 (getDynamicColors 40).
Proof. apply getDynamicColors_prefix. lia. Defined.

Lemma getDynamicColors_nth n i :
  27 <= i < n -> nth_error (getDynamicColors n) i = Some (hsl i).
Proof.
  intros [Hlo Hhi]. rewrite getDynamicColors_unfold, List.nth_error_firstn.
  destruct (Nat.ltb_spec i n) as [_|]; [|lia].
  assert (Hlen : length defaultColors = 27) by reflexivity.
  rewrite List.nth_error_app2 by lia. rewrite Hlen.
  rewrite List.nth_error_map, List.nth_error_seq.
  destruct (Nat.ltb_spec (i - 27) (n - 27)) as [_|]; [|lia].
  cbn. do 2 f_equal. lia.
Qed.

Lemma hsl_period i : hsl (i + 144) = hsl i.
Proof.
  unfold hsl, hueString.
  replace ((i + 144) * 275) with (i * 275 + 55 * 720) by lia.
  now rewrite Nat.Div0.mod_add.
Qed.

(** X15.  The generated colours repeat with period 144: the hue advances
    by 137.5 degrees per item, and 144 such steps are 55 full turns.  Past
    the palette, the items [i] and [i + 144] get the same colour. *)
Theorem getDynamicColors_period n i :
  27 <= i -> i + 144 < n ->
  nth_error (getDynamicColors n) (i + 144) = nth_error (getDynamicColors n) i.
Proof.
  intros Hlo Hhi. rewrite !getDynamicColors_nth by lia. now rewrite hsl_period.
Qed.

Lemma getDynamicColors_period_witness :
  nth_error (getDynamicColors 200) (30 + 144) = nth_error (getDynamicColors 200) 30.
Proof. apply getDynamicColors_period; lia. Defined.

(** ** Series *)

Lemma mapi_from_nth {A B} (f : A -> nat -> B) l : forall s i,
  nth_error (mapi_from f s l) i = option_map (fun x => f x (s + i)) (nth_error l i).
Proof.
  induction l as [|x l IH]; intros s [|i]; cbn; try reflexivity.
  - now rewrite Nat.add_0_r.
  - rewrite IH. now replace (S s + i) with (s + S i) by lia.
Qed.

Lemma mapi_from_length {A B} (f : A -> nat -> B) l : forall s,
  length (mapi_from f s l) = length l.
Proof. induction l as [|x l IH]; intros s; cbn; [reflexivity|]. now rewrite IH. Qed.

Lemma mapi_nth {A B} (f : A -> nat -> B) l i :
  nth_error (mapi f l) i = option_map (fun x => f x i) (nth_error l i).
Proof. unfold mapi. now rewrite mapi_from_nth. Qed.

Lemma index_mapi {A} (f : A -> nat -> JsVal) l i x :
  nth_error l i = Some x -> index (mapi f l) i = f x i.
Proof. intros H. unfold index. now rewrite mapi_nth, H. Qed.

Lemma index_In a i : i < length a -> In (index a i) a.
Proof.
  intros Hi. unfold index. destruct (nth_error a i) eqn:E.
  - eapply List.nth_error_In, E.
  - apply List.nth_error_None in E. lia.
Qed.

Lemma chartColors_nonempty c : chartColors c <> [].
Proof. unfold chartColors. destruct (colors c) as [[|]|]; discriminate. Qed.

Lemma colorAt_In colors i : colors <> [] -> In (colorAt colors i) colors.
Proof.
  intros Hne. unfold colorAt. destruct colors as [|c cs]; [contradiction|].
  apply index_In. apply Nat.mod_upper_bound. discriminate.
Qed.

(** X16.  A column chart and a bar chart have one series per label, and
    with the colours [getChartOption] resolves every series is coloured from
    them, in cyclic order: series [i] has colour [i mod n] of the [n]
    resolved colours.  Called with an empty colour list the builders leave
    the colour [undefined]. *)
Theorem bar_series_colours config i label :
  nth_error (labels config) i = Some label ->
  let resolved := chartColors config in
  let colourOf series := prop "color" (prop "itemStyle" (index series i)) in
  let column := columnSeries (labels config) (data config) resolved in
  let bar := barSeries (labels config) (data config) resolved in
  length column = length (labels config) /\
  length bar = length (labels config) /\
  colourOf column = index resolved (i mod length resolved) /\
  colourOf bar = colourOf column /\
  In (colourOf column) resolved /\
  prop "name" (index column i) = label /\
  colourOf (columnSeries (labels config) (data config) []) = JUndefined.
Proof.
  intros Hl. cbv zeta. unfold columnSeries, barSeries, index.
  rewrite !mapi_nth, Hl. cbn [option_map].
  unfold mapi. rewrite !mapi_from_length. cbn.
  pose proof (chartColors_nonempty config) as Hne.
  repeat split.
  - unfold colorAt. now destruct (chartColors config).
  - now apply colorAt_In.
Qed.

(** X17.  A pie has one slice per label, whatever the length of the data:
    the slice of label [i] carries that label, the value [data[i]] when
    that is truthy and [0] otherwise (so also past the end of the data),
    and the url [urls[i]] when that is truthy and [null] otherwise (so also
    without urls); the donut has the same slices. *)
Theorem pie_slices isDarkMode labels data colors labelField urls :
  exists items,
    slices (getPieChartOption isDarkMode labels data colors labelField urls) = JArr items /\
    slices (getDonutChartOption isDarkMode labels data colors labelField urls) = JArr items /\
    length items = length labels /\
    forall i label, nth_error labels i = Some label ->
      let slice := index items i in
      prop "name" slice = label /\
      prop "value" slice = (if truthy (index data i) then index data i else JNum 0) /\
      (length data <= i -> prop "value" slice = JNum 0) /\
      prop "url" slice =
        match urls with
        | Some u => if truthy (index u i) then index u i else JNull
        | None => JNull
        end /\
      prop "url" slice <> JUndefined /\ prop "url" slice <> JStr "".
Proof.
  exists (mapi (pieDatum data urls) labels).
  split; [reflexivity|]. split; [reflexivity|].
  split; [apply mapi_from_length|].
  intros i label Hl. cbv zeta. rewrite (index_mapi _ _ _ _ Hl).
  unfold pieDatum. cbn.
  repeat split.
  - intros Hi. unfold index. apply List.nth_error_None in Hi. now rewrite Hi.
  - destruct urls as [u|]; [|easy].
    destruct (truthy (index u i)) eqn:E; [|easy].
    intros H. rewrite H in E. discriminate.
  - destruct urls as [u|]; [|easy].
    destruct (truthy (index u i)) eqn:E; [|easy].
    intros H. rewrite H in E. discriminate.
Qed.

Lemma mapiThrow_from_Some {A B} (f : A -> nat -> option B) l : forall s ys,
  mapiThrow_from f s l = Some ys ->
  length ys = length l /\
  forall i x, nth_error l i = Some x ->
    exists y, f x (s + i) = Some y /\ nth_error ys i = Some y.
Proof.
  induction l as [|a l IH]; intros s ys; cbn [mapiThrow_from].
  - intros [= <-]. split; [reflexivity|]. intros [|i] x; discriminate.
  - destruct (f a s) as [y|] eqn:Ea; [|discriminate].
    destruct (mapiThrow_from f (S s) l) as [ys'|] eqn:El; [|discriminate].
    intros [= <-]. destruct (IH _ _ El) as [Hlen Hnth]. split; [cbn; now rewrite Hlen|].
    intros [|i] x; cbn [nth_error].
    + intros [= <-]. exists y. now rewrite Nat.add_0_r.
    + intros Hx. destruct (Hnth i x Hx) as (y' & Hy & Hn). exists y'.
      now replace (s + S i) with (S s + i) by lia.
Qed.

Lemma mapiThrow_from_None {A B} (f : A -> nat -> option B) l : forall s,
  mapiThrow_from f s l = None <->
  exists i x, nth_error l i = Some x /\ f x (s + i) = None.
Proof.
  induction l as [|a l IH]; intros s; cbn [mapiThrow_from].
  - split; [discriminate|]. intros ([|i] & x & H & _); discriminate.
  - destruct (f a s) as [y|] eqn:Ea.
    + destruct (mapiThrow_from f (S s) l) as [ys'|] eqn:El.
      * split; [discriminate|]. intros ([|i] & x & Hx & Hf); cbn [nth_error] in Hx.
        -- injection Hx as <-. rewrite Nat.add_0_r in Hf. congruence.
        -- assert (Hnone : mapiThrow_from f (S s) l = None).
           { apply IH. exists i, x. now replace (S s + i) with (s + S i) by lia. }
           congruence.
      * split; [|reflexivity]. intros _. apply IH in El as (i & x & Hx & Hf).
        exists (S i), x. now replace (s + S i) with (S s + i) by lia.
    + split; [|reflexivity]. intros _. exists 0, a. now rewrite Nat.add_0_r.
Qed.

(** X18.  The series of a stacked vertical chart.  When [stackedData], its
    [categories] or its [series] is falsy, or the [series] are an empty
    array, the function returns the column chart of the one label
    ['No Data'] with the value [0].  Otherwise, for [series] an array,
    building the series fails exactly when an entry is [null] or
    [undefined]; when it succeeds there is one series per entry, each
    taking the name and the data of its entry and stacking on ['total'],
    and the last one alone has the rounded corners.  Entries that are
    functions are left aside. *)
Theorem stacked_series stackedData colors :
  (truthy stackedData = false \/ truthy (prop "categories" stackedData) = false \/
   truthy (prop "series" stackedData) = false \/ prop "series" stackedData = JArr [] ->
   stackedVerticalSeries stackedData colors =
   NoData [JObj [ ("name", JStr "No Data");
                  ("type", JStr "bar");
                  ("data", JArr [JNum 0]);
                  ("itemStyle", JObj [ ("color", colorAt colors 0);
                                       ("borderRadius",
                                        JArr [JNum 4; JNum 4; JNum 0; JNum 0]) ]) ]]) /\
  (forall items,
     truthy stackedData = true -> truthy (prop "categories" stackedData) = true ->
     prop "series" stackedData = JArr items -> items <> [] ->
     existsb isFunction items = false ->
     (stackedVerticalSeries stackedData colors = TypeError \/
      exists series, stackedVerticalSeries stackedData colors = Stacked series) /\
     (stackedVerticalSeries stackedData colors = TypeError <->
      exists i, nth_error items i = Some JNull \/ nth_error items i = Some JUndefined) /\
     (forall series, stackedVerticalSeries stackedData colors = Stacked series ->
      length series = length items /\
      forall i item, nth_error items i = Some item ->
        let s := index series i in
        prop "name" s = prop "name" item /\
        prop "data" s = prop "data" item /\
        prop "stack" s = JStr "total" /\
        prop "borderRadius" (prop "itemStyle" s) =
          (if Nat.eqb (S i) (length items)
           then JArr [JNum 4; JNum 4; JNum 0; JNum 0]
           else JArr [JNum 0; JNum 0; JNum 0; JNum 0]))).
Proof.
  split.
  - unfold stackedVerticalSeries. intros [H|[H|[H|H]]].
    + now rewrite H.
    + rewrite H. now destruct (truthy stackedData).
    + destruct (truthy stackedData); [|reflexivity].
      destruct (truthy (prop "categories" stackedData)); [|reflexivity]. cbn [negb].
      destruct (prop "series" stackedData) as [| | | | |[|]| |]; try discriminate;
        cbn in H |- *; try rewrite H; reflexivity.
    + rewrite H. now destruct (truthy stackedData), (truthy (prop "categories" stackedData)).
  - intros items Hd Hc Hs Hne Hfun. unfold stackedVerticalSeries.
    rewrite Hd, Hc, Hs. cbn [negb].
    destruct items as [|x items]; [contradiction|].
    set (all := x :: items) in *. rewrite Hfun.
    destruct (mapiThrow_from (stackedVerticalSeriesItem (length all)) 0 all)
      as [built|] eqn:E.
    + split; [right; eauto|]. split.
      * split; [discriminate|]. intros (i & Hi).
        assert (Hnone : mapiThrow_from (stackedVerticalSeriesItem (length all)) 0 all = None).
        { apply mapiThrow_from_None.
          destruct Hi as [Hx|Hx]; eexists i, _; (split; [exact Hx|reflexivity]). }
        congruence.
      * intros series [= <-]. apply mapiThrow_from_Some in E as [Hlen Hnth].
        split; [assumption|]. intros i item Hi.
        destruct (Hnth i item Hi) as (y & Hy & Hn). cbv zeta.
        unfold index. rewrite Hn. cbn [Nat.add] in Hy.
        unfold stackedVerticalSeriesItem in Hy.
        destruct item; cbn in Hy; try discriminate; injection Hy as <-; cbn; auto.
    + split; [now left|]. split; [|discriminate].
      split; [|reflexivity]. intros _.
      apply mapiThrow_from_None in E as (i & y & Hy & Hf). exists i.
      unfold stackedVerticalSeriesItem in Hf.
      destruct y; cbn in Hf; try discriminate; auto.
Qed.

Example stacked_series_run :
  stackedVerticalSeries
    (JObj [("categories", JArr [JStr "Q1"; JStr "Q2"]);
           ("series",
            JArr [JObj [("name", JStr "open"); ("data", JArr [JNum 1; JNum 2])];
                  JObj [("name", JStr "won"); ("data", JArr [JNum 3; JNum 4])]])])
    [JStr "#a5b4fc"] =
  Stacked
    [JObj [("name", JStr "open"); ("type", JStr "bar"); ("stack", JStr "total");
           ("data", JArr [JNum 1; JNum 2]); ("barWidth", JStr "60%");
           ("itemStyle", JObj [("borderRadius", JArr [JNum 0; JNum 0; JNum 0; JNum 0])]);
           ("emphasis", JObj [("focus", JStr "series")])];
     JObj [("name", JStr "won"); ("type", JStr "bar"); ("stack", JStr "total");
           ("data", JArr [JNum 3; JNum 4]); ("barWidth", JStr "60%");
           ("itemStyle", JObj [("borderRadius", JArr [JNum 4; JNum 4; JNum 0; JNum 0])]);
           ("emphasis", JObj [("focus", JStr "series")])]].
Proof. reflexivity. Qed.

(** Without categories the entries are not looked at: a [null] among them
    does not throw. *)
Example stacked_series_no_data :
  stackedVerticalSeries (JObj [("series", JArr [JNull])]) [JStr "#a5b4fc"] =
  NoData [JObj [("name", JStr "No Data"); ("type", JStr "bar"); ("data", JArr [JNum 0]);
                ("itemStyle", JObj [("color", JStr "#a5b4fc");
                                    ("borderRadius", JArr [JNum 4; JNum 4; JNum 0; JNum 0])])]] /\
  stackedVerticalSeries (JObj [("categories", JArr []); ("series", JArr [JNull])]) [] = TypeError.
Proof. split; reflexivity. Qed.

(** ** Click and hover *)

Lemma urlAt_In urls i u : urlAt urls i = Some u -> In u urls /\ below urls i = true.
Proof.
  unfold urlAt, below. destruct i as [n|]; [|discriminate].
  destruct (Nat.ltb_spec n (length urls)) as [Hlt|]; [|discriminate].
  intros [= <-]. split; [now apply index_In|reflexivity].
Qed.

(** X19.  Handlers are attached only for a non-empty list of urls.  A
    click then navigates only to a truthy destination other than ['#'],
    which is the [url] of the clicked datum or an element of the urls; with
    htmx on the page the navigation goes through an [hx-get] link, and
    without it through [window.location]. *)
Theorem click_destination htmxDefined urls handlers params nav :
  attachClickHandler htmxDefined urls = Some handlers ->
  click handlers params = Some nav ->
  let u := destination nav in
  (exists list, urls = Some list /\ list <> [] /\
     (u = prop "url" (params_data params) \/ In u list)) /\
  truthy u = true /\
  u <> JStr "#" /\
  nav = (if htmxDefined then HtmxGet u else LocationHref u).
Proof.
  unfold attachClickHandler. destruct urls as [[|u0 list]|]; try discriminate.
  intros [= <-]. cbn [click]. unfold onClick.
  destruct (truthy (clickTarget (u0 :: list) params)
            && negb (isString "#" (clickTarget (u0 :: list) params)))%bool eqn:E;
    [|discriminate].
  intros [= <-]. apply andb_prop in E as [Et En]. apply negb_true_iff in En.
  assert (Hd : destination (if htmxDefined
                            then HtmxGet (clickTarget (u0 :: list) params)
                            else LocationHref (clickTarget (u0 :: list) params)) =
               clickTarget (u0 :: list) params) by now destruct htmxDefined.
  cbv zeta. rewrite Hd. split; [|split; [|split]].
  - exists (u0 :: list). split; [reflexivity|]. split; [discriminate|].
    unfold clickTarget in *.
    destruct (truthy (params_data params) && truthy (prop "url" (params_data params)))%bool;
      [now left|].
    destruct (urlAt (u0 :: list) (seriesIndex params)) as [u|] eqn:Es;
      [right; now apply urlAt_In in Es|].
    destruct (urlAt (u0 :: list) (dataIndex params)) as [u|] eqn:Ed;
      [right; now apply urlAt_In in Ed|].
    discriminate.
  - exact Et.
  - intros H. rewrite H in En. discriminate.
  - reflexivity.
Qed.

Lemma click_destination_witness :
  let params := {| params_data := JNum 7; seriesIndex := Some 1; dataIndex := Some 0 |} in
  let nav := HtmxGet (JStr "/lost") in
  let u := destination nav in
  (exists list, Some [JStr "/won"; JStr "/lost"] = Some list /\ list <> [] /\
     (u = prop "url" (params_data params) \/ In u list)) /\
  truthy u = true /\
  u <> JStr "#" /\
  nav = (if true then HtmxGet u else LocationHref u).
Proof.
  apply (click_destination true (Some [JStr "/won"; JStr "/lost"])
           {| click := onClick true [JStr "/won"; JStr "/lost"];
              mouseover := onMouseover [JStr "/won"; JStr "/lost"] |});
    reflexivity.
Defined.

(** X20.  Wherever a click navigates, hovering has set the pointer
    cursor. *)
Theorem click_implies_pointer htmxDefined urls handlers params nav :
  attachClickHandler htmxDefined urls = Some handlers ->
  click handlers params = Some nav ->
  mouseover handlers params = true.
Proof.
  unfold attachClickHandler. destruct urls as [[|u0 list]|]; try discriminate.
  intros [= <-]. cbn [click mouseover]. unfold onClick, onMouseover, clickTarget.
  destruct (truthy (params_data params)) eqn:Ed; cbn [andb].
  - destruct (truthy (prop "url" (params_data params))) eqn:Eu.
    + rewrite Eu. cbn [andb].
      destruct (negb (isString "#" (prop "url" (params_data params)))); [reflexivity|discriminate].
    + destruct (urlAt (u0 :: list) (seriesIndex params)) as [u|] eqn:Es.
      * apply urlAt_In in Es as [_ ->]. now rewrite orb_true_r.
      * destruct (urlAt (u0 :: list) (dataIndex params)) as [u|] eqn:Edi; [|discriminate].
        apply urlAt_In in Edi as [_ ->]. reflexivity.
  - destruct (urlAt (u0 :: list) (seriesIndex params)) as [u|] eqn:Es.
    + apply urlAt_In in Es as [_ ->]. now rewrite orb_true_r.
    + destruct (urlAt (u0 :: list) (dataIndex params)) as [u|] eqn:Edi; [|discriminate].
      apply urlAt_In in Edi as [_ ->]. reflexivity.
Qed.

Lemma click_implies_pointer_witness :
  mouseover {| click := onClick false [JStr "/won"]; mouseover := onMouseover [JStr "/won"] |}
    {| params_data := JObj [("url", JNull)]; seriesIndex := Some 0; dataIndex := Some 3 |} = true.
Proof.
  apply (click_implies_pointer false (Some [JStr "/won"]) _ _ (LocationHref (JStr "/won")));
    reflexivity.
Defined.

(** The converse fails: over an item whose url is ['#'] the cursor is the
    pointer and a click does nothing. *)
Example pointer_without_navigation :
  let params := {| params_data := JNum 7; seriesIndex := Some 0; dataIndex := Some 0 |} in
  onMouseover [JStr "#"] params = true /\ onClick true [JStr "#"] params = None.
Proof. split; reflexivity. Qed.

(** * The statements at concrete pages

    The pages of [Examples] hold strings of ASCII characters only and are
    run with the case mappings on such strings. *)

#[local] Existing Instance Js.asciiCase.

(** ** The claims on short_key.js *)

Lemma lookup_finds_held_shortcut_witness :
  let found := is_Some (lookup (shortcutKeysCache Examples.holding) (Js.toUpperCase "d")) in
  (found <->
   exists sk, In sk (shortcutKeysCache Examples.holding) /\ sameKey (key sk) "d" /\
              command sk = "alt") /\
  (found <->
   prevented (step (KeyDown (Examples.altD true)) Examples.holding) =
     S (prevented Examples.holding)) /\
  (found <->
   exists sk, In sk (shortcutKeysCache Examples.holding) /\
              equalIgnoringCase (key sk) "d" = true /\ command sk = "alt").
Proof.
  destruct (lookup_finds_held_shortcut Examples.holding "d" "alt")
    as (Hscript & Hhandler & Hspec).
  - apply asciiCase_idempotent.
  - apply reachable_run.
  - reflexivity.
  - split; [exact Hscript|]. split.
    + apply (Hhandler (Examples.altD true)); reflexivity.
    + apply Hspec; [apply asciiCase_agrees | reflexivity].
Defined.

Lemma holdTimer_invariant_witness :
  (forall id, modifierHoldTimer (state Examples.holding) = Some id ->
     activeModifier (state Examples.holding) = Some "alt") /\
  (forall id, showPending Examples.holding id ->
     modifierHoldTimer (state Examples.holding) = Some id /\
     activeModifier (state Examples.holding) = Some "alt" /\
     modalShown (state Examples.holding) = false).
Proof. apply (holdTimer_invariant Examples.holding), reachable_run. Defined.

(** C3 as stated fails once the timer has fired: the callback shows the
    overlay and leaves the handle in place. *)
Lemma holdTimer_handle_outlives_firing :
  reachable Examples.overlayUp /\
  modifierHoldTimer (state Examples.overlayUp) = Some 1%positive /\
  modalShown (state Examples.overlayUp) = true /\
  ~ (forall p, reachable p -> modifierHoldTimer (state p) <> None ->
       activeModifier (state p) <> None /\ modalShown (state p) = false).
Proof.
  split; [apply reachable_run|]. split; [reflexivity|]. split; [reflexivity|].
  intros H. destruct (H Examples.overlayUp) as [_ Hs].
  - apply reachable_run.
  - discriminate.
  - discriminate.
Qed.



Lemma close_resets_state_witness :
  let closes (q : Page) :=
    closed q /\ forall evs, noAltDown evs = true -> shows (run evs q) = shows q in
  closes (step CloseButton Examples.observed) /\
  closes (step ExternalHide Examples.observed).
Proof.
  destruct (close_resets_state Examples.observed) as [Hbutton Hhide].
  - apply reachable_run.
  - split; [exact Hbutton|]. apply Hhide. eexists. repeat split.
Defined.

(** C4.  The script does not do what the claim, and its own comment at
    line 40, ask for: between the first show and the attachment of the
    observer, which [createShortcutModal] defers to a timer, the visible
    overlay is hidden from outside and the state stays as it was.  It
    stays so: the observer is attached afterwards, the modifier is released
    and held again, and no show-timer is armed, since [modalShown] is still
    set while the overlay is hidden. *)
Lemma unobserved_hide_keeps_state :
  let p := Examples.overlayUp in
  let q := step ExternalHide p in
  let up := {| altKey := false; pressed := "Alt"; focusInTextEntry := false |} in
  let later := run [TimerFires 2%positive; KeyUp up; KeyDown (Examples.altDown false)] q in
  reachable p /\
  modal p = Some {| hidden := false; observerAttached := false |} /\
  timers p !! 2%positive = Some ObserverTimer /\
  modal q = Some {| hidden := true; observerAttached := false |} /\
  modalShown (state q) = true /\
  activeModifier (state q) = Some "alt" /\
  ~ closed q /\
  modal later = Some {| hidden := true; observerAttached := true |} /\
  shortcutKeysState later =
    {| modalShown := true; activeModifier := Some "alt"; modifierHoldTimer := None |} /\
  arms later = arms p /\
  timers later = ∅ /\
  ~ (forall p, reachable p -> overlayVisible p -> closed (step ExternalHide p)).
Proof.
  cbv zeta. split; [apply reachable_run|]. repeat split.
  - intros (Hs & _). discriminate Hs.
  - intros H. destruct (H Examples.overlayUp) as (Hs & _).
    + apply reachable_run.
    + now eexists.
    + discriminate.
Qed.




Lemma navigation_target_witness :
  exists u,
    last (effects (step (KeyDown (Examples.altD false)) Examples.holding)) =
      Some (Navigate u) /\
    (forall v, section (normalize false Examples.dashboard) = Some v -> v <> "" ->
       u = SearchParamsSet (NewURL (page (normalize false Examples.dashboard))) "section" v) /\
    (section (normalize false Examples.dashboard) = None \/
     section (normalize false Examples.dashboard) = Some "" ->
     u = NewURL (page (normalize false Examples.dashboard))).
Proof.
  apply (navigation_target Examples.holding (Examples.altD false)
           (normalize false Examples.dashboard)); reflexivity.
Defined.



(** ** The scenarios of the specification, run *)

(** Alt held for the hold duration outside any input: one row, ALT + D. *)
Example scenario_overlay_row :
  effects Examples.overlayUp =
  [SetTimeout 1 ShowTimer; SetTimeout 2 ObserverTimer;
   ShowOverlay [normalize false Examples.dashboard]] /\
  displayCommand (normalize false Examples.dashboard) = "ALT" /\
  key (normalize false Examples.dashboard) = "D".
Proof. repeat split. Qed.

(** ... then D: the overlay closes and the page goes to [/dashboard], with
    no section parameter. *)
Example scenario_overlay_then_key :
  let q := step (KeyDown (Examples.altD false)) Examples.overlayUp in
  effects q =
  effects Examples.overlayUp ++
  [ClearTimeout 1; PreventDefault; SetTimeout 3 (HideTimer true);
   Navigate (NewURL "/dashboard")] /\
  shortcutKeysState q =
  {| modalShown := false; activeModifier := None; modifierHoldTimer := None |}.
Proof. repeat split. Qed.

(** A shortcut with a section, on a Mac. *)
Example scenario_section :
  targetUrl (normalize true Examples.leads) =
    SearchParamsSet (NewURL "/leads") "section" "crm" /\
  displayCommand (normalize true Examples.leads) = "OPTION".
Proof. repeat split. Qed.

(** The first request fails: an Alt-hold shows the overlay with no rows. *)
Example scenario_fetch_error :
  effects (run [FetchError; KeyDown (Examples.altDown false); TimerFires 1%positive]
             Examples.start) =
  [ConsoleError "Failed to fetch shortcut keys:"; SetTimeout 1 ShowTimer;
   SetTimeout 2 ObserverTimer; ShowOverlay []].
Proof. reflexivity. Qed.

(** A hold begun while the overlay is still fading out after a close: the
    hide timer of that close fires first, the observer sees the overlay
    hidden and resets the state, which clears the new show-timer. *)
Example hold_during_close :
  let q := run [CloseButton; KeyDown (Examples.altDown false); TimerFires 3%positive]
             Examples.observed in
  effects q =
  effects Examples.observed ++
  [SetTimeout 3 (HideTimer true); ClearTimeout 1; SetTimeout 4 ShowTimer; ClearTimeout 4] /\
  shortcutKeysState q =
  {| modalShown := false; activeModifier := None; modifierHoldTimer := None |}.
Proof. repeat split. Qed.

(** ** Further properties of short_key.js *)

Lemma release_cancels_hold_witness :
  let up := {| altKey := false; pressed := "Alt"; focusInTextEntry := false |} in
  let evs := [TimerFires 1%positive; KeyUp up; CloseButton] in
  let q := step (KeyUp up) Examples.holding in
  activeModifier (state q) = None /\
  modifierHoldTimer (state q) = None /\
  noShowPending q /\
  shows q = shows Examples.holding /\
  shows (run evs q) = shows Examples.holding.
Proof.
  apply (release_cancels_hold Examples.holding);
    [apply reachable_run | reflexivity | reflexivity].
Defined.

Lemma one_show_timer_witness :
  1%positive = 1%positive.
Proof.
  apply (one_show_timer Examples.holding); [apply reachable_run | reflexivity..].
Defined.

Lemma handlers_bound_after_first_fetch_witness :
  let p := Examples.refreshed in
  listening p = negb (fetchInFlight p) /\
  (fetchInFlight p = true ->
   (forall e, step (KeyDown e) p = p /\ step (KeyUp e) p = p) /\
   (forall data, listening (step (FetchSuccess data) p) = true) /\
   listening (step FetchError p) = true).
Proof. apply (handlers_bound_after_first_fetch Examples.refreshed), reachable_run. Defined.

Lemma typing_never_triggers_witness :
  let evs := [KeyDown (Examples.altDown true); KeyDown (Examples.altD true);
              KeyUp {| altKey := false; pressed := "d"; focusInTextEntry := true |}] in
  let p := Examples.loaded in
  let q := run evs p in
  arms q = arms p /\ shows q = shows p /\ navigations q = navigations p /\
  modal q = modal p /\ modalShown (state q) = modalShown (state p).
Proof. apply typing_never_triggers. reflexivity. Defined.

Lemma only_hits_navigate_witness :
  let ev := KeyDown (Examples.altD false) in
  let p := Examples.holding in
  isHit p ev /\
  (isHit p ev /\ exists e, ev = KeyDown e /\ focusInTextEntry e = false).
Proof.
  destruct (only_hits_navigate (KeyDown (Examples.altD false)) Examples.holding)
    as [Hprevented Hnavigates].
  split; [apply Hprevented | apply Hnavigates]; discriminate.
Defined.

Lemma miss_passes_through_witness :
  let p := Examples.holding in
  let q := step (KeyDown {| altKey := true; pressed := "x"; focusInTextEntry := false |}) p in
  prevented q = prevented p /\ navigations q = navigations p /\ shows q = shows p /\
  arms q = arms p /\
  activeModifier (state q) = activeModifier (state p) /\
  modalShown (state q) = modalShown (state p) /\
  modifierHoldTimer (state q) = None /\
  noShowPending q.
Proof.
  apply (miss_passes_through Examples.holding);
    [apply reachable_run | reflexivity..].
Defined.

Lemma lookup_first_match_witness :
  exists before after,
    shortcutKeysCache Examples.loaded =
      before ++ normalize false Examples.dashboard :: after /\
    Forall (fun sk => matches "D" sk = false) before /\
    matches "D" (normalize false Examples.dashboard) = true.
Proof. apply (lookup_first_match (shortcutKeysCache Examples.loaded) "D"). reflexivity. Defined.

Lemma lookup_after_refresh_witness :
  let data := [Examples.dashboard; Examples.leads] in
  let q := step (RefreshSuccess data) Examples.holding in
  lookup (shortcutKeysCache q) (Js.toUpperCase "l") =
    option_map (normalize (isMac Examples.holding)) (List.find (rawMatches "l") data) /\
  (forall m, lookup (shortcutKeysCache q) (Js.toUpperCase "l") = Some m ->
     command m = "alt" /\ key m = Js.toUpperCase "l").
Proof.
  apply (lookup_after_refresh Examples.holding [Examples.dashboard; Examples.leads] "l").
  apply asciiCase_idempotent.
Defined.

Lemma matching_ignores_platform_witness :
  let data := [Examples.leads; Examples.dashboard] in
  let onMac := lookup (List.map (normalize true) data) "L" in
  let elsewhere := lookup (List.map (normalize false) data) "L" in
  option_map targetUrl onMac = option_map targetUrl elsewhere /\
  option_map key onMac = option_map key elsewhere /\
  option_map title onMac = option_map title elsewhere /\
  (forall r, Js.toLowerCase (raw_command r) = "alt" ->
     displayCommand (normalize true r) = "OPTION" /\
     displayCommand (normalize false r) = Js.toUpperCase (raw_command r)).
Proof. apply matching_ignores_platform. Defined.

Lemma observer_stays_attached_witness :
  let q := run [KeyUp (Examples.altDown false); CloseButton; KeyDown (Examples.altDown false);
                TimerFires 4%positive] Examples.observed in
  observerOn q /\ (overlayVisible q -> closed (step ExternalHide q)).
Proof.
  apply (observer_stays_attached Examples.observed).
  - apply reachable_run.
  - eexists. split; reflexivity.
Defined.

Lemma show_makes_overlay_visible_witness :
  let q := step (TimerFires 1%positive) Examples.holding in
  modalShown (state q) = true /\
  overlayVisible q /\
  (observerOn q \/ exists j, timers q !! j = Some ObserverTimer) /\
  last (effects q) = Some (ShowOverlay (shortcutKeysCache Examples.holding)).
Proof. apply (show_makes_overlay_visible Examples.holding 1%positive). reflexivity. Defined.

Lemma close_hides_overlay_witness :
  let p := Examples.observed in
  let q := step CloseButton p in
  let r := step (TimerFires (nextTimerId p)) q in
  modal q = modal p /\
  timers q !! nextTimerId p = Some (HideTimer (bool_decide (is_Some (modal p)))) /\
  shortcutKeysState r =
    {| modalShown := false; activeModifier := None; modifierHoldTimer := None |} /\
  modal r =
    match modal p with
    | Some m => Some {| hidden := true; observerAttached := observerAttached m |}
    | None => None
    end.
Proof. apply (close_hides_overlay Examples.observed), reachable_run. Defined.

Lemma fetched_shortcut_navigates_witness :
  let hold := {| altKey := true; pressed := "Alt"; focusInTextEntry := false |} in
  let press := {| altKey := true; pressed := "L"; focusInTextEntry := false |} in
  let q := run [FetchSuccess [Examples.dashboard; Examples.leads]; KeyDown hold; KeyDown press]
             (init true None) in
  last (effects q) =
    Some (Navigate (if Js.truthy (raw_section Examples.leads)
                    then SearchParamsSet (NewURL (raw_page Examples.leads)) "section"
                           (Js.or_empty (raw_section Examples.leads))
                    else NewURL (raw_page Examples.leads))) /\
  navigations q = 1 /\ shows q = 0 /\ closed q.
Proof.
  apply (fetched_shortcut_navigates true None [Examples.dashboard; Examples.leads]
           "L" Examples.leads "Alt").
  - apply asciiCase_idempotent.
  - reflexivity.
Defined.

(** ** horilla_charts.js *)

Lemma getChartOption_default_witness :
  let b := Examples.someBuilder in
  let s := Examples.someStackedBuilder in
  fst (getChartOption (b "bar") (b "column") (b "line") (b "funnel") (b "scatter")
         (s "stacked_vertical") (s "stacked_horizontal") true Examples.radar) =
  getPieChartOption true (labels Examples.radar) (data Examples.radar)
    (chartColors Examples.radar) (labelField Examples.radar) (urls Examples.radar) /\
  (forall c cs, colors Examples.radar = Some (c :: cs) ->
     chartColors Examples.radar = c :: cs) /\
  (colors Examples.radar = None \/ colors Examples.radar = Some [] ->
   chartColors Examples.radar = List.map JStr defaultColors).
Proof.
  apply getChartOption_default. cbn. intros H.
  repeat destruct H as [H|H]; try discriminate H. exact H.
Defined.

Lemma bar_series_colours_witness :
  let config := Examples.radar in
  let i := 1 in
  let resolved := chartColors config in
  let colourOf series := prop "color" (prop "itemStyle" (index series i)) in
  let column := columnSeries (labels config) (data config) resolved in
  let bar := barSeries (labels config) (data config) resolved in
  length column = length (labels config) /\
  length bar = length (labels config) /\
  colourOf column = index resolved (i mod length resolved) /\
  colourOf bar = colourOf column /\
  In (colourOf column) resolved /\
  prop "name" (index column i) = JStr "lost" /\
  colourOf (columnSeries (labels config) (data config) []) = JUndefined.
Proof. apply (bar_series_colours Examples.radar 1 (JStr "lost")). reflexivity. Defined.
